(** * FioriMCP: the introspection and selector-resolution engine

    A shallow embedding of the parts of the repository that derive selectors,
    reconcile scanned metadata, resolve filters and classify the outcome of
    an action, with the properties the specification states about them.

    Conventions of the embedding.
    - A JavaScript string is a [string]: the sequence of its code units,
      each below 256 (the Latin-1 range).
    - A value that may be [undefined] or [null] is an [option].
    - A JavaScript [Set] of strings is a [gset string].
    - A plain object used as a table is given by its own properties; a
      lookup in it also finds what [Object.prototype] gives ([Rows.get]).
    - The page is a tree of DOM nodes; the CSS selectors the code passes to
      [querySelector] are terms of a small selector syntax (compounds, the
      descendant combinator, comma lists) with its matching function.
    - A call that may throw is a value of [Scanner.call]; commands that act
      on the page return the list of their page operations. *)

From Stdlib Require Import Ascii.
From stdpp Require Import base option list strings gmap.

(** ** JavaScript string primitives *)

Module Js.

(** [s.startsWith(p)] *)
Fixpoint startsWith (s p : string) : bool :=
  match p with
  | EmptyString => true
  | String c p' =>
      match s with
      | EmptyString => false
      | String d s' => Ascii.eqb d c && startsWith s' p'
      end
  end.

(** [s.includes(sub)] *)
Fixpoint includes (s sub : string) : bool :=
  startsWith s sub ||
  match s with
  | EmptyString => false
  | String _ s' => includes s' sub
  end.

(** [s.endsWith(suf)] *)
Fixpoint endsWith (s suf : string) : bool :=
  String.eqb s suf ||
  match s with
  | EmptyString => false
  | String _ s' => endsWith s' suf
  end.

(** Truthiness of a string value that may be absent: [undefined], [null]
    and the empty string are falsy. *)
Definition truthy (v : option string) : bool :=
  match v with
  | Some (String _ _) => true
  | _ => false
  end.

(** [a || b] on such values. *)
Definition or_else (a b : option string) : option string :=
  if truthy a then a else b.

(** [`${v}`]: an absent value prints as the word undefined. *)
Definition show (v : option string) : string :=
  match v with
  | Some s => s
  | None => "undefined"
  end.

(** [xs.join(sep)] *)
Fixpoint join (sep : string) (xs : list string) : string :=
  match xs with
  | [] => ""
  | [x] => x
  | x :: rest => x +:+ sep +:+ join sep rest
  end.

(** The characters [String.prototype.trim] removes: tab, line feed,
    vertical tab, form feed, carriage return, space and the no-break
    space (160). *)
Definition is_ws (c : ascii) : bool :=
  match c with
  | "009" | "010" | "011" | "012" | "013" | " " | "160" => true
  | _ => false
  end%char.

Fixpoint trimStart (s : string) : string :=
  match s with
  | EmptyString => EmptyString
  | String c s' => if is_ws c then trimStart s' else s
  end.

(** Removes the trailing white space: a character is kept when it is not
    white space or when something that is kept follows it. *)
Fixpoint trimEnd (s : string) : string :=
  match s with
  | EmptyString => EmptyString
  | String c s' =>
      match trimEnd s' with
      | EmptyString => if is_ws c then EmptyString else String c EmptyString
      | r => String c r
      end
  end.

(** [s.trim()] *)
Definition trim (s : string) : string := trimEnd (trimStart s).

(** [s.toLowerCase()] on one code unit: the letters A to Z, and the
    accented capitals 192 to 222 without the multiplication sign 215. *)
Definition lower (c : ascii) : ascii :=
  let n := nat_of_ascii c in
  if (65 <=? n)%nat && (n <=? 90)%nat then ascii_of_nat (n + 32)
  else if (192 <=? n)%nat && (n <=? 222)%nat && negb (n =? 215)%nat
       then ascii_of_nat (n + 32)
  else c.

Fixpoint toLowerCase (s : string) : string :=
  match s with
  | EmptyString => EmptyString
  | String c s' => String (lower c) (toLowerCase s')
  end.

(** [s.replace(/[class]/g, '')] for a character class given as a
    predicate. *)
Fixpoint strip (cls : ascii -> bool) (s : string) : string :=
  match s with
  | EmptyString => EmptyString
  | String c s' => if cls c then strip cls s' else String c (strip cls s')
  end.

(** [s.replace(/suf$/, '')] for a literal [suf]: the suffix is removed
    when [s] ends with it. *)
Fixpoint dropSuffix (suf s : string) : string :=
  if String.eqb s suf then EmptyString
  else
    match s with
    | EmptyString => EmptyString
    | String c s' => if endsWith s' suf then String c (dropSuffix suf s') else s
    end.

(** The replacement of every no-break space by a space. *)
Fixpoint nbspToSpace (s : string) : string :=
  match s with
  | EmptyString => EmptyString
  | String c s' =>
      String (if Ascii.eqb c "160" then " " else c)%char (nbspToSpace s')
  end.

(** [s.split(sep)] for a non-empty separator.  [split_from sep skip s]
    reads [s] from the left: [skip] counts the characters of a separator
    found earlier that are still to be passed over; the result is the
    piece being read and the pieces after it. *)
Fixpoint split_from (sep : string) (skip : nat) (s : string)
  : string * list string :=
  match s with
  | EmptyString => (EmptyString, [])
  | String c s' =>
      match skip with
      | S k => split_from sep k s'
      | O =>
          if startsWith s sep then
            let '(p, ps) := split_from sep (String.length sep - 1) s' in
            (EmptyString, p :: ps)
          else
            let '(p, ps) := split_from sep 0 s' in
            (String c p, ps)
      end
  end.

Definition split (sep s : string) : list string :=
  let '(p, ps) := split_from sep 0 s in p :: ps.

(** [s.split(sep)[0]] *)
Definition splitFirst (sep s : string) : string :=
  default EmptyString (head (split sep s)).

(** [s.split(sep)[1]], absent when [sep] does not occur in [s]. *)
Definition splitSecond (sep s : string) : option string :=
  split sep s !! 1.

(** [s.split(sep).pop()] *)
Definition splitLast (sep s : string) : string :=
  default EmptyString (last (split sep s)).

(** The number of characters of [s] that satisfy [p], and whether all do. *)
Fixpoint count (p : ascii -> bool) (s : string) : nat :=
  match s with
  | EmptyString => 0
  | String c rest => (if p c then 1 else 0) + count p rest
  end.

Fixpoint all (p : ascii -> bool) (s : string) : bool :=
  match s with
  | EmptyString => true
  | String c rest => p c && all p rest
  end.

(** A string of white space only. *)
Definition blank (s : string) : Prop := all is_ws s = true.

End Js.

(** ** Identifier codec: [cssEscape] of extract-all.js and extract-tables.js,
  [escapeCss] of the scanner *)

Module Codec.

Definition backslash : ascii := "\"%char.

(** The character class of the regular expression of [cssEscape], in the
    order the source writes it; character 034 is the double quote. *)
Definition special (c : ascii) : bool :=
  match c with
  | " " | "#" | "." | ";" | "?" | "+" | "*" | "~" | "'" | ":" | "034"
  | "!" | "^" | "$" | "[" | "]" | "(" | ")" | "=" | ">" | "|" | "/" | "@" =>
      true
  | _ => false
  end%char.

(** The global replacement of [cssEscape]: every match is one character
    of the class and is replaced by a backslash followed by itself. *)
Fixpoint cssEscape (id : string) : string :=
  match id with
  | EmptyString => EmptyString
  | String c rest =>
      if special c then String backslash (String c (cssEscape rest))
      else String c (cssEscape rest)
  end.

(** [id?.replace(...)]: an absent id stays absent. *)
Definition cssEscape_opt (id : option string) : option string :=
  cssEscape <$> id.

(** The characters the specification lists for [escapeSelector]: space,
    [#], [.], [;], [?], [+], [*], [~], the quotes, [!], [^], [$], brackets,
    parentheses, [=], [>], [|], [/], [@]. *)
Definition listed (c : ascii) : bool :=
  match c with
  | " " | "#" | "." | ";" | "?" | "+" | "*" | "~" | "'" | "034"
  | "!" | "^" | "$" | "[" | "]" | "(" | ")" | "=" | ">" | "|" | "/" | "@" =>
      true
  | _ => false
  end%char.

(** What [cssEscape] writes for one character. *)
Definition escaped (c : ascii) : string :=
  if special c then String backslash (String c EmptyString)
  else String c EmptyString.

End Codec.

(** ** Action classification: [classifyActionId] of extract-all.js and
  extract-tables.js *)

Module Actions.

Inductive actionType : Set :=
| unknown
| standard
| custom
| custom_candidate.

(** The argument is [None] for [null] and [undefined]. *)
Definition classifyActionId (id : option string) : actionType :=
  match id with
  | None => unknown
  | Some EmptyString => unknown
  | Some s =>
      if Js.includes s "::StandardAction::" then standard
      else if Js.endsWith s "-settings" || Js.includes s "-export" then standard
      else if Js.includes s "showHideDetails" then standard
      else if Js.includes s "toolbar-overflowButton" then standard
      else if Js.includes s "::CustomAction::" then custom
      else custom_candidate
  end.

End Actions.

(** ** The page: DOM nodes, [textContent] and selector queries *)

Module Dom.

Record element : Set := {
  tag : string;
  eid : string;
  classes : list string;
  attrs : list (string * string)
}.

Unset Elimination Schemes.
Inductive node : Set :=
| Text (data : string)
| Elem (e : element) (children : list node).
Set Elimination Schemes.

(** An element of the page with the chain of its ancestors, the parent
    first. *)
Record loc : Set := {
  ancestors : list element;
  self : element;
  kids : list node
}.

(** [node.textContent]: the data of all text descendants, in document
    order. *)
Fixpoint textContent (n : node) : string :=
  match n with
  | Text d => d
  | Elem _ ch => foldr (fun c acc => textContent c +:+ acc) "" ch
  end.

Definition text (l : loc) : string := textContent (Elem (self l) (kids l)).

(** [el.className] *)
Definition className (l : loc) : string := Js.join " " (classes (self l)).

(** [el.getAttribute(k)] *)
Definition getAttribute (k : string) (e : element) : option string :=
  snd <$> List.find (fun kv => String.eqb (fst kv) k) (attrs e).

(** The element [n] and the elements below it, in document order. *)
Fixpoint under (anc : list element) (n : node) : list loc :=
  match n with
  | Text _ => []
  | Elem e ch =>
      {| ancestors := anc; self := e; kids := ch |}
        :: flat_map (under (e :: anc)) ch
  end.

Definition descendants (l : loc) : list loc :=
  flat_map (under (self l :: ancestors l)) (kids l).

(** A document is the list of its top-level nodes. *)
Definition document : Set := list node.

Definition elements (doc : document) : list loc := flat_map (under []) doc.

(** *** Selectors *)

Inductive simple : Set :=
| Tag (t : string)                 (* [t] *)
| Class (c : string)               (* [.c] *)
| IdIs (s : string)                (* [#s] *)
| IdEndsWith (s : string)          (* [[id$=s]] *)
| IdContains (s : string)          (* [[id*=s]] *)
| AttrIs (k v : string)            (* [[k=v]] *)
| AttrPresent (k : string).        (* [[k]] *)

(** A compound selector: all of its simple selectors hold of one element. *)
Definition compound : Set := list simple.

(** A complex selector built with the descendant combinator: [subject]
    is its last compound, [within] the compounds before it, the nearest
    first. *)
Record complex : Set := {
  subject : compound;
  within : list compound
}.

(** A selector list: the alternatives separated by commas. *)
Definition selector : Set := list complex.

Definition only (c : compound) : complex := {| subject := c; within := [] |}.
Definition inside (outer c : compound) : complex :=
  {| subject := c; within := [outer] |}.

Definition matches_simple (e : element) (s : simple) : bool :=
  match s with
  | Tag t => String.eqb (tag e) t
  | Class c => existsb (String.eqb c) (classes e)
  | IdIs s => String.eqb (eid e) s
  | IdEndsWith s => negb (String.eqb s "") && Js.endsWith (eid e) s
  | IdContains s => negb (String.eqb s "") && Js.includes (eid e) s
  | AttrIs k v =>
      match getAttribute k e with
      | Some w => String.eqb w v
      | None => false
      end
  | AttrPresent k =>
      match getAttribute k e with
      | Some _ => true
      | None => false
      end
  end.

Definition matches_compound (e : element) (c : compound) : bool :=
  forallb (matches_simple e) c.

(** The compounds of [reqs] are met, in this order, by ancestors taken
    from the nearest one upwards. *)
Fixpoint within_ok (reqs : list compound) (anc : list element) : bool :=
  match reqs with
  | [] => true
  | r :: reqs' =>
      (fix climb (up : list element) : bool :=
         match up with
         | [] => false
         | a :: up' =>
             if matches_compound a r then within_ok reqs' up' else climb up'
         end) anc
  end.

Definition matches_complex (l : loc) (c : complex) : bool :=
  matches_compound (self l) (subject c) && within_ok (within c) (ancestors l).

Definition matches (sel : selector) (l : loc) : bool :=
  existsb (matches_complex l) sel.

(** [el.querySelectorAll(sel)] and [el.querySelector(sel)] *)
Definition querySelectorAll (sel : selector) (l : loc) : list loc :=
  List.filter (matches sel) (descendants l).

Definition querySelector (sel : selector) (l : loc) : option loc :=
  head (querySelectorAll sel l).

(** [document.querySelectorAll(sel)] and [document.querySelector(sel)] *)
Definition docQuerySelectorAll (sel : selector) (doc : document) : list loc :=
  List.filter (matches sel) (elements doc).

Definition docQuerySelector (sel : selector) (doc : document) : option loc :=
  head (docQuerySelectorAll sel doc).

End Dom.

(** ** Row extraction: [getTableRows] of the generated server, whose
  callback is also the one of [extractRows] in read-rows.js and of
  [cmd_getRows] in rc-repl.js *)

Module Rows.
Import Dom.

(** [table[id$='-innerTable-listUl']] *)
Definition tableSel : selector :=
  [only [Tag "table"; IdEndsWith "-innerTable-listUl"]].
(** [th[id$="-innerColumn"]] *)
Definition headerCellSel : selector :=
  [only [Tag "th"; IdEndsWith "-innerColumn"]].
(** [tbody tr.sapMListTblRow] *)
Definition bodyRowSel : selector :=
  [inside [Tag "tbody"] [Tag "tr"; Class "sapMListTblRow"]].
(** [td[data-sap-ui-column]] *)
Definition dataCellSel : selector :=
  [only [Tag "td"; AttrPresent "data-sap-ui-column"]].
(** [span] *)
Definition spanSel : selector := [only [Tag "span"]].

(** The value read from one body cell:
    [let text = (td.textContent || '').trim();
     if (!text) text = spans.map(s => s.textContent || '').join(' ').trim()]
    with [spans] the [span] elements below the cell. *)
Definition cellText (td : loc) : string :=
  match Js.trim (text td) with
  | EmptyString =>
      Js.trim (Js.join " " (map text (querySelectorAll spanSel td)))
  | t => t
  end.

(** The key of a header cell: [after = hid.split('::C::')[1] || ''],
    [key = after.replace(/-innerColumn$/, '')], and [key || hid]. *)
Definition columnKey (hid : string) : string :=
  let after := default "" (Js.splitSecond "::C::" hid) in
  match Js.dropSuffix "-innerColumn" after with
  | EmptyString => hid
  | key => key
  end.

(** *** Plain objects *)

(** What a property lookup on a plain object can find: a string the code
    stored in it, or what every object inherits from [Object.prototype],
    one of its built-in functions or, under [__proto__], the prototype
    itself. *)
Inductive found : Set :=
| Str (s : string)
| Builtin (name : string)
| Prototype.

(** The function a property of [Object.prototype] holds, by its name. *)
Definition builtin (name : string) : option string :=
  if String.eqb name "constructor" then Some "Object"
  else if existsb (String.eqb name)
            ["__defineGetter__"; "__defineSetter__"; "hasOwnProperty";
             "__lookupGetter__"; "__lookupSetter__"; "isPrototypeOf";
             "propertyIsEnumerable"; "toString"; "valueOf"; "toLocaleString"]
  then Some name
  else None.

(** [Boolean(v)]: of what a lookup finds, the empty string only is
    falsy. *)
Definition truthyFound (v : found) : bool :=
  match v with
  | Str EmptyString => false
  | _ => true
  end.

(** [String(v)], the name of the property in [o[v]]; a built-in function
    prints as the engine of Chromium prints it. *)
Definition nameOf (v : found) : string :=
  match v with
  | Str s => s
  | Builtin f => "function " +:+ f +:+ "() { [native code] }"
  | Prototype => "[object Object]"
  end.

(** [o[name]] on a plain object with the own properties [own]: an own
    property hides an inherited one, and [__proto__] is never an own
    property. *)
Definition get (own : gmap string string) (name : string) : option found :=
  if String.eqb name "__proto__" then Some Prototype
  else
    match own !! name with
    | Some s => Some (Str s)
    | None => Builtin <$> builtin name
    end.

(** [columnMap[hid] = key || hid] for every header cell.  The assignment
    of a string to [__proto__] leaves the object as it is. *)
Definition columnMap (headerCells : list loc) : gmap string string :=
  foldl (fun m th =>
           let hid := eid (self th) in
           if String.eqb hid "__proto__" then m else <[hid := columnKey hid]> m)
        ∅ headerCells.

(** A row object: its own properties in the order in which the object
    lists them, the array indices first, in ascending order, then the other
    names in the order of their first assignment. *)
Definition rowObj : Set := list (string * string).

Fixpoint decimal (acc : N) (s : string) : option N :=
  match s with
  | EmptyString => Some acc
  | String c rest =>
      let n := N_of_ascii c in
      if (48 <=? n)%N && (n <=? 57)%N then decimal (10 * acc + (n - 48))%N rest
      else None
  end.

(** The array index a property name is: a decimal numeral without a
    leading zero, of value below 2^32 - 1. *)
Definition arrayIndex (name : string) : option N :=
  match name with
  | EmptyString => None
  | String "0" EmptyString => Some 0%N
  | String "0" _ => None
  | _ =>
      match decimal 0 name with
      | Some n => if (n <=? 4294967294)%N then Some n else None
      | None => None
      end
  end.

(** A new property whose name is the array index [i] goes before the
    first property that is not an array index below [i]. *)
Fixpoint place (i : N) (k v : string) (obj : rowObj) : rowObj :=
  match obj with
  | [] => [(k, v)]
  | (k', v') :: rest =>
      match arrayIndex k' with
      | Some j => if (j <? i)%N then (k', v') :: place i k v rest else (k, v) :: obj
      | None => (k, v) :: obj
      end
  end.

(** [obj[k] = v] for a string [v]: nothing for [__proto__]; a property the
    object has keeps its place and gets the value; a new one is placed. *)
Definition assign (k v : string) (obj : rowObj) : rowObj :=
  if String.eqb k "__proto__" then obj
  else if existsb (fun kv => String.eqb (fst kv) k) obj
  then map (fun kv => if String.eqb (fst kv) k then (k, v) else kv) obj
  else
    match arrayIndex k with
    | Some i => place i k v obj
    | None => obj ++ [(k, v)]
    end.

(** The body of [tds.forEach]: [colId] is a string or [null], and
    [columnMap[colId]] looks up the name [String(colId)]. *)
Definition readCell (cmap : gmap string string) (obj : rowObj) (td : loc)
  : rowObj :=
  let colId := getAttribute "data-sap-ui-column" (self td) in
  let key :=
    match get cmap (default "null" colId) with
    | Some v => if truthyFound v then Some v else Str <$> colId
    | None => Str <$> colId
    end in
  let text := cellText td in
  match key with
  | Some v => if truthyFound v then assign (nameOf v) text obj else obj
  | None => obj
  end.

Definition readRow (cmap : gmap string string) (tr : loc) : rowObj :=
  foldl (readCell cmap) [] (querySelectorAll dataCellSel tr).

Record tableRows : Set := {
  tableListId : string;
  rows : list rowObj;
  rowCount : nat
}.

Definition readTable (doc : document) (tbl : loc) : tableRows :=
  let tableListId := eid (self tbl) in
  let basePrefix := Js.dropSuffix "-innerTable-listUl" tableListId in
  let headerRow :=
    docQuerySelector [only [IdIs (basePrefix +:+ "-innerTable-tblHeader")]] doc in
  let headerCells :=
    match headerRow with
    | Some h => querySelectorAll headerCellSel h
    | None => []
    end in
  let cmap := columnMap headerCells in
  let rows := map (readRow cmap) (querySelectorAll bodyRowSel tbl) in
  {| tableListId := tableListId; rows := rows; rowCount := length rows |}.

Definition getTableRows (doc : document) : list tableRows :=
  map (readTable doc) (docQuerySelectorAll tableSel doc).

(** *** A list report with three rows and a composite currency cell *)

Definition el (t i : string) (cls : list string) (at_ : list (string * string))
  : element :=
  {| tag := t; eid := i; classes := cls; attrs := at_ |}.

Definition span (s : string) : node := Elem (el "span" "" [] []) [Text s].

(** A cell whose text lives in two nested spans, with no text of its own. *)
Definition currencyCell : node :=
  Elem (el "td" "" ["sapMListTblCell"]
          [("data-sap-ui-column", "T::table::LineItem::C::Price-innerColumn")])
       [span "100"; span "USD"].

Definition currencyLoc : loc :=
  {| ancestors := []; self := el "td" "" ["sapMListTblCell"]
       [("data-sap-ui-column", "T::table::LineItem::C::Price-innerColumn")];
     kids := [span "100"; span "USD"] |}.

Definition bodyRow : node :=
  Elem (el "tr" "" ["sapMLIB"; "sapMListTblRow"] []) [currencyCell].

Definition reportPage : document :=
  [Elem (el "table" "T::table::LineItem-innerTable-listUl" ["sapMListTbl"] [])
     [Elem (el "thead" "" [] [])
        [Elem (el "tr" "T::table::LineItem-innerTable-tblHeader" [] [])
           [Elem (el "th" "T::table::LineItem::C::Price-innerColumn" [] []) [Text "Price"]]];
      Elem (el "tbody" "" [] []) [bodyRow; bodyRow; bodyRow]]].

End Rows.

(** ** Interaction executor: the classification of the page after a click,
  [executeAction] and [executeTableAction] of the generated server *)

Module Executor.
Import Dom.

Inductive scenario : Set :=
| form_opened
| popup_dialog
| error_messages
| action_completed.

Inductive severity : Set := Information | Error | Warning | Success.

Record message : Set := { msgSeverity : severity; msgText : string }.

(** The selectors of the two functions. *)

(** [.sapMMsgView, [id$="messagePopover-popover-cont"], .sapMMessageView] *)
Definition popoverSel : selector :=
  [only [Class "sapMMsgView"]; only [IdEndsWith "messagePopover-popover-cont"];
   only [Class "sapMMessageView"]].
(** [.sapMMsgViewItem, li.sapMMsgViewItem, li.sapMLIB] *)
Definition itemSel : selector :=
  [only [Class "sapMMsgViewItem"]; only [Tag "li"; Class "sapMMsgViewItem"];
   only [Tag "li"; Class "sapMLIB"]].
(** [.sapMLnkText, .sapMSLITitleOnly, .sapMSLITitleOnly span, a .sapMLnkText] *)
Definition itemTextSel : selector :=
  [only [Class "sapMLnkText"]; only [Class "sapMSLITitleOnly"];
   inside [Class "sapMSLITitleOnly"] [Tag "span"];
   inside [Tag "a"] [Class "sapMLnkText"]].
(** [a, span] *)
Definition itemTextFallbackSel : selector := [only [Tag "a"]; only [Tag "span"]].
(** [#__item24-titleText, #__item26-titleText, a, span] *)
Definition itemTextFallbackSel' : selector :=
  [only [IdIs "__item24-titleText"]; only [IdIs "__item26-titleText"];
   only [Tag "a"]; only [Tag "span"]].
(** [.sapMDialog.sapMMessageBox, .sapMDialogError, .sapMMessageDialog,
    .sapMMessageBoxError, [role="alertdialog"].sapMDialog] *)
Definition messageBoxSel : selector :=
  [only [Class "sapMDialog"; Class "sapMMessageBox"]; only [Class "sapMDialogError"];
   only [Class "sapMMessageDialog"]; only [Class "sapMMessageBoxError"];
   only [AttrIs "role" "alertdialog"; Class "sapMDialog"]].
(** [.sapMFT, .sapMMsgBoxText, [id$="-title"], [id$="-title-inner"]] *)
Definition boxTextSel : selector :=
  [only [Class "sapMFT"]; only [Class "sapMMsgBoxText"];
   only [IdEndsWith "-title"]; only [IdEndsWith "-title-inner"]].
(** [.sapMMessageStrip] *)
Definition stripSel : selector := [only [Class "sapMMessageStrip"]].
(** [.sapMDialog.sapMDialogOpen] *)
Definition openDialogSel : selector :=
  [only [Class "sapMDialog"; Class "sapMDialogOpen"]].
(** [form, .sapUiForm, input[type="text"], .sapMInputBase] *)
Definition dialogFormSel : selector :=
  [only [Tag "form"]; only [Class "sapUiForm"];
   only [Tag "input"; AttrIs "type" "text"]; only [Class "sapMInputBase"]].
(** [.sapMDialogFooter] *)
Definition footerSel : selector := [only [Class "sapMDialogFooter"]].
(** [.sapUxAPObjectPageLayout, .sapFeCoreObjectPage, [id*="ObjectPage"]] *)
Definition objectPageSel : selector :=
  [only [Class "sapUxAPObjectPageLayout"]; only [Class "sapFeCoreObjectPage"];
   only [IdContains "ObjectPage"]].
(** [[id*="::Field-edit"], input[id*="-inner"], .sapMInputBase] *)
Definition formFieldSel : selector :=
  [only [IdContains "::Field-edit"]; only [Tag "input"; IdContains "-inner"];
   only [Class "sapMInputBase"]].
(** [input[type="text"], .sapMInputBase input, textarea] *)
Definition dialogInputSel : selector :=
  [only [Tag "input"; AttrIs "type" "text"];
   inside [Class "sapMInputBase"] [Tag "input"]; only [Tag "textarea"]].
(** [[id*="::Field-edit"], input[id*="-inner"], .sapMInputBase input, textarea] *)
Definition formInputSel : selector :=
  [only [IdContains "::Field-edit"]; only [Tag "input"; IdContains "-inner"];
   inside [Class "sapMInputBase"] [Tag "input"]; only [Tag "textarea"]].

(** The severity read from a class attribute. *)
Definition severityOf (cls : string) : severity :=
  if Js.includes cls "Error" then Error
  else if Js.includes cls "Warning" then Warning
  else if Js.includes cls "Success" then Success
  else Information.

(** [(el?.textContent || '').replace(/nbsp/g, ' ').trim()] *)
Definition cleanText (el : option loc) : string :=
  Js.trim (Js.nbspToSpace (from_option text "" el)).

Definition first_of (a b : option loc) : option loc :=
  match a with
  | Some _ => a
  | None => b
  end.

(** A message is collected only when its text is not empty. *)
Definition collect (cls : string) (t : string) : list message :=
  match t with
  | EmptyString => []
  | _ => [{| msgSeverity := severityOf cls; msgText := t |}]
  end.

Definition popoverMessages (fallback : selector) (doc : document)
  : list message :=
  match docQuerySelector popoverSel doc with
  | None => []
  | Some popover =>
      flat_map
        (fun li =>
           let textEl :=
             first_of (querySelector itemTextSel li) (querySelector fallback li) in
           collect (className li) (cleanText textEl))
        (querySelectorAll itemSel popover)
  end.

Definition messageBoxMessages (doc : document) : list message :=
  flat_map
    (fun dlg => collect (className dlg) (cleanText (querySelector boxTextSel dlg)))
    (docQuerySelectorAll messageBoxSel doc).

Definition stripMessages (doc : document) : list message :=
  flat_map
    (fun strip => collect (className strip) (Js.trim (Js.nbspToSpace (text strip))))
    (docQuerySelectorAll stripSel doc).

Definition present (o : option loc) : bool :=
  match o with
  | Some _ => true
  | None => false
  end.

(** The first open dialog of the document has a form-like region and a
    footer. *)
Definition dialogWithFormAndFooter (doc : document) : bool :=
  match docQuerySelector openDialogSel doc with
  | Some dialog =>
      present (querySelector dialogFormSel dialog)
      && present (querySelector footerSel dialog)
  | None => false
  end.

(** What the functions return: the scenario and what goes with it.  The
    result of [executeTableAction] for an open dialog names the dialog, the
    result of [executeAction] has no such field.  The form fields are given
    by the input elements the code iterates over, in their order: both
    functions build the record of a field (id, label, value, type and
    selector) from the input and its position with the same expressions,
    which read what the browser holds about the input (the value typed, the
    element before it) and the page as modelled does not. *)
Inductive ActionResult : Set :=
| PopupDialog (dialogId : option string) (formFields : list loc)
| ErrorMessages (messages : list message)
| FormOpened (formFields : list loc)
| ActionCompleted.

Definition scenarioOf (r : ActionResult) : scenario :=
  match r with
  | PopupDialog _ _ => popup_dialog
  | ErrorMessages _ => error_messages
  | FormOpened _ => form_opened
  | ActionCompleted => action_completed
  end.

Definition dialogFields (doc : document) : list loc :=
  match docQuerySelector openDialogSel doc with
  | Some dialog => querySelectorAll dialogInputSel dialog
  | None => []
  end.

(** [dialog.id || 'unknown'] for the dialog the detection found. *)
Definition openDialogId (doc : document) : string :=
  match docQuerySelector openDialogSel doc with
  | Some dialog =>
      match eid (self dialog) with
      | EmptyString => "unknown"
      | i => i
      end
  | None => "unknown"
  end.

(** [executeAction] once the action is clicked and the bounded wait is
    over: the messages are collected first and decide the outcome when
    there is one; the dialog is looked for afterwards. *)
Definition executeAction (doc : document) : ActionResult :=
  let messages :=
    popoverMessages itemTextFallbackSel doc ++ messageBoxMessages doc in
  match messages with
  | _ :: _ => ErrorMessages messages
  | [] =>
      if dialogWithFormAndFooter doc then PopupDialog None (dialogFields doc)
      else if present (docQuerySelector objectPageSel doc)
              || present (docQuerySelector formFieldSel doc)
      then FormOpened (docQuerySelectorAll formInputSel doc)
      else ActionCompleted
  end.

(** The scenario [executeTableAction] detects once the button is clicked;
    the source comments it as the check "in order of priority". *)
Definition detectScenario (doc : document) : scenario :=
  if dialogWithFormAndFooter doc then popup_dialog
  else if present (docQuerySelector popoverSel doc)
          || present (docQuerySelector messageBoxSel doc)
          || present (docQuerySelector stripSel doc)
  then error_messages
  else if present (docQuerySelector objectPageSel doc)
          || present (docQuerySelector formFieldSel doc)
  then form_opened
  else action_completed.

Definition executeTableAction (doc : document) : ActionResult :=
  match detectScenario doc with
  | popup_dialog => PopupDialog (Some (openDialogId doc)) (dialogFields doc)
  | error_messages =>
      ErrorMessages (popoverMessages itemTextFallbackSel' doc
                       ++ messageBoxMessages doc ++ stripMessages doc)
  | form_opened => FormOpened (docQuerySelectorAll formInputSel doc)
  | action_completed => ActionCompleted
  end.

(** The page holds an open dialog with a form-like region and a footer. *)
Definition hasFormDialog (doc : document) : bool :=
  existsb
    (fun d => present (querySelector dialogFormSel d)
              && present (querySelector footerSel d))
    (docQuerySelectorAll openDialogSel doc).

(** The page holds a message popover. *)
Definition hasPopover (doc : document) : bool :=
  present (docQuerySelector popoverSel doc).

(** *** A page with a form dialog and a message popover *)

Definition el (t i : string) (cls : list string) (at_ : list (string * string))
  : element :=
  {| tag := t; eid := i; classes := cls; attrs := at_ |}.

Definition formDialog : node :=
  Elem (el "div" "createDialog" ["sapMDialog"; "sapMDialogOpen"] [("role", "dialog")])
    [Elem (el "div" "" ["sapUiForm"] [])
       [Elem (el "input" "createDialog-name-inner" ["sapMInputBaseInner"]
                [("type", "text")]) []];
     Elem (el "footer" "" ["sapMDialogFooter"] [])
       [Elem (el "button" "createDialog-ok" ["sapMBtn"] []) [Text "OK"]]].

Definition messagePopover : node :=
  Elem (el "div" "fe::FooterBar::MessageButton-messagePopover-popover-cont"
           ["sapMPopoverCont"] [])
    [Elem (el "div" "" ["sapMMsgView"] [])
       [Elem (el "ul" "" [] [])
          [Elem (el "li" "" ["sapMLIB"; "sapMMsgViewItem"; "sapMMsgViewItemError"] [])
             [Elem (el "span" "" ["sapMSLITitleOnly"] [])
                [Text "Agency ID is mandatory"]]]]].

Definition dialogAndPopover : document :=
  [Elem (el "body" "" [] []) [formDialog; messagePopover]].

(** A message box that stands before the form dialog in the document. *)
Definition messageBox : node :=
  Elem (el "div" "errorBox" ["sapMDialog"; "sapMDialogOpen"; "sapMMessageBox"]
          [("role", "alertdialog")])
    [Elem (el "span" "errorBox-text" ["sapMMsgBoxText"] []) [Text "Save failed"]].

Definition messageBoxBeforeDialog : document :=
  [Elem (el "body" "" [] []) [messageBox; formDialog]].

End Executor.

(** ** Metadata reconciler: extract-all.js *)

Module Reconciler.
Import Codec Actions.

(** *** The scan file *)

Record InnerIds : Set := {
  inputId : option string;
  selectId : option string;
  dateId : option string
}.

Definition noInnerIds : InnerIds :=
  {| inputId := None; selectId := None; dateId := None |}.

Record FilterItem : Set := {
  itemId : option string;
  itemLocalId : option string;
  itemLabelText : option string;
  itemPropertyKey : option string;
  innerIds : option InnerIds
}.

Record FilterBarInfo : Set := {
  filterItemCount : option nat;
  items : option (list FilterItem)
}.

Record Control : Set := {
  id : option string;
  type : option string;
  roleHint : option string;
  text : option string;
  labelText : option string;
  localId : option string;
  bindingConditions : option string;   (* [bindingPaths.conditions] *)
  filterBarInfo : option FilterBarInfo
}.

Record P13n : Set := {
  p13nTableId : string;
  p13nColumns : option (list string)
}.

Record Scan : Set := {
  controls : list Control;
  tablesP13n : list P13n      (* [extras.tablesP13n] *)
}.

(** *** The canonical model *)

Record FilterSelectors : Set := {
  filterFieldCss : option string;
  inputCss : option string;
  selectCss : option string;
  dateCss : option string
}.

Record FilterDescriptor : Set := {
  propertyKey : string;
  label : option string;
  filterFieldId : option string;
  filterLocalId : option string;
  selectors : FilterSelectors
}.

Record Column : Set := {
  colPropertyKey : string;
  colLabel : string;
  headerColumnId : option string;
  headerColumnCss : option string
}.

Record Action : Set := {
  actionId : string;
  actionText : option string;
  actionKind : actionType;
  actionSelector : string
}.

Record TableSelectors : Set := {
  tableCss : string;
  innerTableCss : option string;
  listUlCss : option string;
  selectAllCss : option string
}.

Record TableDescriptor : Set := {
  tableId : string;
  innerTableId : option string;
  listUlId : option string;
  tableSelectors : TableSelectors;
  actions : list Action;
  customActions : list Action;
  columns : list Column;
  columnsSource : option string
}.

(** *** [extractFilters] *)

Definition is_str (v : option string) (s : string) : bool :=
  match v with
  | Some w => String.eqb w s
  | None => false
  end.

Definition noInfo : FilterBarInfo :=
  {| filterItemCount := None; items := None |}.

(** [c.roleHint === 'filterbar' && c.filterBarInfo] *)
Definition isFilterBar (c : Control) : bool :=
  is_str (roleHint c) "filterbar" && bool_decide (is_Some (filterBarInfo c)).

(** [c?.filterBarInfo?.filterItemCount ?? (c?.filterBarInfo?.items?.length ?? 0)] *)
Definition itemCount (c : Control) : nat :=
  match filterBarInfo c with
  | Some info =>
      match filterItemCount info with
      | Some n => n
      | None => from_option length 0 (items info)
      end
  | None => 0
  end.

(** The callback of [filterBars.reduce]. *)
Definition better (best cur : Control) : Control :=
  if (itemCount best <? itemCount cur)%nat then cur else best.

(** The filter bar the items are taken from:
    [filterBars.reduce(better, filterBars[0])] when there is a filter bar. *)
Definition primaryFilterBar (controls : list Control) : option Control :=
  match List.filter isFilterBar controls with
  | [] => None
  | first :: rest => Some (foldl better first (first :: rest))
  end.

(** [`#${cssEscape(v)}`] when [v] is truthy. *)
Definition cssOf (v : option string) : option string :=
  if Js.truthy v then Some ("#" +:+ cssEscape (default "" v)) else None.

(** The item made for a stand-alone filter field. *)
Definition itemOfField (f : Control) : FilterItem :=
  {| itemId := id f;
     itemLocalId := localId f;
     itemLabelText := Js.or_else (labelText f) (text f);
     itemPropertyKey :=
       if Js.truthy (bindingConditions f)
       then Some (Js.splitLast "/" (default "" (bindingConditions f)))
       else None;
     innerIds := Some noInnerIds |}.

(** The items of the primary filter bar followed by the filter fields of
    the page whose id is not the id of one of these items. *)
Definition collectItems (controls : list Control) : list FilterItem :=
  let barItems :=
    match primaryFilterBar controls with
    | Some fb => default [] (items (default noInfo (filterBarInfo fb)))
    | None => []
    end in
  let allFields :=
    List.filter (fun c => is_str (type c) "sap.ui.mdc.FilterField") controls in
  let existingIds : gset (option string) := list_to_set (itemId <$> barItems) in
  foldl (fun acc f =>
           if bool_decide (id f ∈ existingIds) then acc
           else acc ++ [itemOfField f])
        barItems allFields.

(** [it.propertyKey || it.localId || it.id] *)
Definition keyOf (it : FilterItem) : option string :=
  Js.or_else (Js.or_else (itemPropertyKey it) (itemLocalId it)) (itemId it).

Definition descriptorOf (key : string) (it : FilterItem) : FilterDescriptor :=
  let inner := default noInnerIds (innerIds it) in
  {| propertyKey := key;
     label := Js.or_else (itemLabelText it) None;
     filterFieldId := itemId it;
     filterLocalId := itemLocalId it;
     selectors :=
       {| filterFieldCss := cssOf (itemId it);
          inputCss := cssOf (inputId inner);
          selectCss := cssOf (selectId inner);
          dateCss := cssOf (dateId inner) |} |}.

(** The body of the deduplicating [items.forEach]: the state is the set
    [seen] and the array [result]. *)
Definition dedupStep (st : gset string * list FilterDescriptor) (it : FilterItem)
  : gset string * list FilterDescriptor :=
  let '(seen, result) := st in
  match keyOf it with
  | Some (String c k) =>
      let key := String c k in
      if bool_decide (key ∈ seen) then st
      else ({[key]} ∪ seen, result ++ [descriptorOf key it])
  | _ => st
  end.

Definition extractFilters (controls : list Control) : list FilterDescriptor :=
  snd (foldl dedupStep (∅, []) (collectItems controls)).

(** *** [extractTables] *)

(** [c?.text || c?.labelText || undefined] *)
Definition getText (c : Control) : option string :=
  Js.or_else (Js.or_else (text c) (labelText c)) None.

Definition idIs (s : string) (c : Control) : bool := is_str (id c) s.

Definition idSat (p : string -> bool) (c : Control) : bool :=
  match id c with
  | Some s => p s
  | None => false
  end.

(** [c?.id] *)
Definition idOf (c : option Control) : option string :=
  match c with
  | Some x => id x
  | None => None
  end.

Definition isTableRoot (c : Control) : bool :=
  idSat (fun s => Js.includes s "::table::" && Js.endsWith s "::LineItem") c.

Definition isActionCandidate (basePrefix : string) (c : Control) : bool :=
  idSat (fun s =>
           Js.startsWith s (basePrefix +:+ "-toolbar")
           || Js.startsWith s (basePrefix +:+ "::")
           || Js.startsWith s (basePrefix +:+ "-export")
           || Js.endsWith s "-settings") c.

Definition isButton (c : Control) : bool :=
  match type c with
  | Some (String a t) => Js.includes (String a t) "Button"
  | _ => false
  end.

Definition actionOf (c : Control) : Action :=
  {| actionId := default "" (id c);
     actionText := getText c;
     actionKind := classifyActionId (id c);
     actionSelector := "#" +:+ cssEscape (default "" (id c)) |}.

Definition isCustom (a : Action) : bool :=
  match actionKind a with
  | custom | custom_candidate => true
  | _ => false
  end.

(** The body of [colIdControls.forEach]: the state is the set [seenKeys]
    and the array [columns]. *)
Definition columnStep (basePrefix : string) (colIdControls : list Control)
    (st : gset string * list Column) (c : Control) : gset string * list Column :=
  let '(seenKeys, columns) := st in
  match Js.splitSecond (basePrefix +:+ "::C::") (default "" (id c)) with
  | Some (String a r) =>
      match Js.splitFirst "-" (String a r) with
      | EmptyString => st
      | key =>
          if bool_decide (key ∈ seenKeys) then st
          else
            let headerControl :=
              default c (List.find (idIs (basePrefix +:+ "::C::" +:+ key))
                                   colIdControls) in
            let label := default key (getText headerControl) in
            let headerColumnId := basePrefix +:+ "::C::" +:+ key +:+ "-innerColumn" in
            ({[key]} ∪ seenKeys,
             columns ++ [{| colPropertyKey := key;
                            colLabel := label;
                            headerColumnId := Some headerColumnId;
                            headerColumnCss := Some ("#" +:+ cssEscape headerColumnId) |}])
      end
  | _ => st
  end.

Definition tableColumns (controls : list Control) (basePrefix : string)
  : list Column :=
  let colIdControls :=
    List.filter (idSat (fun s => Js.includes s (basePrefix +:+ "::C::"))) controls in
  snd (foldl (columnStep basePrefix colIdControls) (∅, []) colIdControls).

Definition tableOf (controls : list Control) (root : Control) : TableDescriptor :=
  let tableId := default "" (id root) in
  let basePrefix := tableId in
  let innerTable := List.find (idIs (basePrefix +:+ "-innerTable")) controls in
  let listUl := List.find (idIs (basePrefix +:+ "-innerTable-listUl")) controls in
  let actions :=
    actionOf <$> List.filter isButton
                   (List.filter (isActionCandidate basePrefix) controls) in
  let selectAllId := basePrefix +:+ "-innerTable-sa" in
  let selectAll := List.find (idIs selectAllId) controls in
  {| tableId := tableId;
     innerTableId := idOf innerTable;
     listUlId := idOf listUl;
     tableSelectors :=
       {| tableCss := "#" +:+ cssEscape tableId;
          innerTableCss := cssOf (idOf innerTable);
          listUlCss := cssOf (idOf listUl);
          selectAllCss :=
            match selectAll with
            | Some _ => Some ("#" +:+ cssEscape selectAllId)
            | None => None
            end |};
     actions := actions;
     customActions := List.filter isCustom actions;
     columns := tableColumns controls basePrefix;
     columnsSource := None |}.

Definition extractTables (controls : list Control) : list TableDescriptor :=
  tableOf controls <$> List.filter isTableRoot controls.

(** *** The merge of the columns read from the settings dialog, in [main] *)

(** A column known by its label only: [{ propertyKey: label, label }]. *)
Definition labelOnly (l : string) : Column :=
  {| colPropertyKey := l; colLabel := l;
     headerColumnId := None; headerColumnCss := None |}.

(** The inner [forEach]: [existingLabels] is the set of the labels the
    table had before the merge; it is not extended while merging. *)
Definition mergeColumns (cols : list Column) (labels : list string) : list Column :=
  let existingLabels : gset string := list_to_set (colLabel <$> cols) in
  foldl (fun merged l =>
           if bool_decide (l ∈ existingLabels) then merged
           else merged ++ [labelOnly l])
        cols labels.

(** [x.tableId === t.tableId || x.selectors?.tableCss?.includes(cssEscape(t.tableId))] *)
Definition isTarget (t : P13n) (x : TableDescriptor) : bool :=
  String.eqb (tableId x) (p13nTableId t)
  || Js.includes (tableCss (tableSelectors x)) (cssEscape (p13nTableId t)).

(** The table objects are updated in place: the first table that is a
    target of [t] gets the merged columns. *)
Fixpoint mergeInto (t : P13n) (tables : list TableDescriptor)
  : list TableDescriptor :=
  match tables with
  | [] => []
  | x :: rest =>
      if isTarget t x then
        {| tableId := tableId x;
           innerTableId := innerTableId x;
           listUlId := listUlId x;
           tableSelectors := tableSelectors x;
           actions := actions x;
           customActions := customActions x;
           columns := mergeColumns (columns x) (default [] (p13nColumns t));
           columnsSource := Some "scan+dialog" |} :: rest
      else x :: mergeInto t rest
  end.

Definition mergeP13n (tables : list TableDescriptor) (p13n : list P13n)
  : list TableDescriptor :=
  foldl (fun ts t => mergeInto t ts) tables p13n.

(** What [main] writes: [{ filters, tables }]. *)
Record AllJson : Set := {
  filters : list FilterDescriptor;
  tables : list TableDescriptor
}.

Definition reconcile (scan : Scan) : AllJson :=
  {| filters := extractFilters (controls scan);
     tables := mergeP13n (extractTables (controls scan)) (tablesP13n scan) |}.

(** The state of a deduplicating loop: the set holds the keys of the
    array, and the array has no key twice. *)
Definition deduped {A : Type} (key : A -> string) (st : gset string * list A) : Prop :=
  (forall k, k ∈ st.1 <-> k ∈ key <$> st.2) /\ NoDup (key <$> st.2).

(** *** A scan with one table and the columns of its settings dialog *)

Definition ctl (i t : string) (txt : option string) : Control :=
  {| id := Some i; type := Some t; roleHint := None; text := txt;
     labelText := None; localId := None; bindingConditions := None;
     filterBarInfo := None |}.

(** The table has one scanned column, of key [Status] and header text
    [Overall Status]; the dialog lists that column and one labelled
    [Status]. *)
Definition statusScan : Scan :=
  {| controls :=
       [ctl "App--fe::table::Items::LineItem" "sap.ui.mdc.Table" None;
        ctl "App--fe::table::Items::LineItem::C::Status" "sap.ui.mdc.table.Column"
            (Some "Overall Status")];
     tablesP13n :=
       [{| p13nTableId := "App--fe::table::Items::LineItem";
           p13nColumns := Some ["Overall Status"; "Status"] |}] |}.

(** The table has one scanned column, of key and header text [Price]; the
    dialog lists that column and, twice, a column labelled [New]. *)
Definition repeatedLabelScan : Scan :=
  {| controls :=
       [ctl "App--fe::table::Items::LineItem" "sap.ui.mdc.Table" None;
        ctl "App--fe::table::Items::LineItem::C::Price" "sap.ui.mdc.table.Column"
            (Some "Price")];
     tablesP13n :=
       [{| p13nTableId := "App--fe::table::Items::LineItem";
           p13nColumns := Some ["Price"; "New"; "New"] |}] |}.

Definition bar (i : string) (n : nat) : Control :=
  {| id := Some i; type := Some "sap.ui.mdc.FilterBar"; roleHint := Some "filterbar";
     text := None; labelText := None; localId := None; bindingConditions := None;
     filterBarInfo := Some {| filterItemCount := Some n; items := Some [] |} |}.

End Reconciler.

(** ** Filter resolution and [setFilter] *)

Module Resolver.
Import Reconciler.

(** *** What a command does to the page and what it answers *)

Inductive PageOp : Set :=
| Fill (selector value : string)               (* [page.fill] *)
| Click (selector : string)                    (* [page.click] *)
| KeyboardType (text : string)                 (* [page.keyboard.type] *)
| Dispatch (selector : string) (events : list string).
                                               (* [dispatchEvent] on the element *)

Inductive outcome : Set :=
| Reply (text : string)                        (* the text returned or printed *)
| Throws (message : string).                   (* [throw new Error(message)] *)

Definition nl : string := String "010"%char EmptyString.
Definition dq : string := String "034"%char EmptyString.

(** [`.sapMPopupCont li:has-text("${value}")`] *)
Definition popupItem (value : string) : string :=
  ".sapMPopupCont li:has-text(" +:+ dq +:+ value +:+ dq +:+ ")".

(** *** The generated server *)

(** The class of the regular expression of [normalize] as the server has
    it: the hyphen, the underscore and the letter s. *)
Definition stripped (c : ascii) : bool :=
  match c with
  | "-" | "_" | "s" => true
  | _ => false
  end%char.

(** [(str || '').toLowerCase().replace(/[-_s]/g, '')] *)
Definition normalize (str : option string) : string :=
  Js.strip stripped (Js.toLowerCase (default "" str)).

(** The callback of [all.filters.find]. *)
Definition matchesTerm (searchTerm : string) (f : FilterDescriptor) : bool :=
  String.eqb (normalize (Some (propertyKey f))) searchTerm
  || String.eqb (normalize (label f)) searchTerm
  || Js.includes (normalize (Some (propertyKey f))) searchTerm
  || Js.includes (normalize (label f)) searchTerm.

Definition findFilter (filters : list FilterDescriptor) (query : string)
  : option FilterDescriptor :=
  List.find (matchesTerm (normalize (Some query))) filters.

(** The normalized property key or the normalized label of [f] contains
    the normalized query. *)
Definition contains (query : string) (f : FilterDescriptor) : bool :=
  Js.includes (normalize (Some (propertyKey f))) (normalize (Some query))
  || Js.includes (normalize (label f)) (normalize (Some query)).

(** One line of the enumeration: [`- ${f.propertyKey} (${f.label})`]. *)
Definition available (f : FilterDescriptor) : string :=
  "- " +:+ propertyKey f +:+ " (" +:+ Js.show (label f) +:+ ")".

Definition notFoundText (filters : list FilterDescriptor) (query : string)
  : string :=
  "Filter not found: " +:+ query +:+ nl +:+ nl
  +:+ "Available filters:" +:+ nl
  +:+ Js.join nl (available <$> filters) +:+ nl +:+ nl
  +:+ "Please use one of the property keys above.".

(** The interaction with the field of a resolved filter. *)
Definition operate (f : FilterDescriptor) (value : string)
  : list PageOp * option string :=
  let sel := selectors f in
  if Js.truthy (inputCss sel) then
    let css := default "" (inputCss sel) in
    ([Fill css ""; Fill css value; Dispatch css ["input"; "change"; "blur"]], None)
  else if Js.truthy (selectCss sel) then
    ([Click (default "" (selectCss sel)); Click (popupItem value)], None)
  else
    match filterFieldCss sel with
    | Some css => ([Click css; KeyboardType value; Dispatch css ["change"]], None)
    | None => ([], Some "selector: expected string")
    end.

(** [setFilter(propertyKey, value)] over the persisted filters. *)
Definition setFilter (filters : list FilterDescriptor) (query value : string)
  : list PageOp * outcome :=
  match findFilter filters query with
  | None => ([], Reply (notFoundText filters query))
  | Some f =>
      match operate f value with
      | (ops, Some err) => (ops, Throws err)
      | (ops, None) =>
          (ops, Reply ("Filter " +:+ Js.show (label f) +:+ " (" +:+ propertyKey f
                       +:+ ") set to " +:+ value))
      end
  end.

(** *** The command line: [setFilter] of rc.js *)

Definition cliFind (filters : list FilterDescriptor) (key : string)
  : option FilterDescriptor :=
  List.find (fun x => String.eqb (propertyKey x) key) filters.

Definition cliSetFilter (filters : list FilterDescriptor) (key value : string)
  : list PageOp * outcome :=
  match cliFind filters key with
  | None => ([], Throws ("Filter not found: " +:+ key))
  | Some f =>
      let sel := selectors f in
      if Js.truthy (inputCss sel) then
        ([Fill (default "" (inputCss sel)) value], Reply "filter set")
      else if Js.truthy (selectCss sel) then
        ([Click (default "" (selectCss sel)); Click (popupItem value)],
         Reply "filter set")
      else
        match filterFieldCss sel with
        | Some css => ([Click css; KeyboardType value], Reply "filter set")
        | None => ([], Throws "selector: expected string")
        end
  end.

(** *** The resolution the specification describes *)

(** The normalization in the words of the specification: lower case, with
    white space, hyphens and underscores removed. *)
Definition specNormalize (str : option string) : string :=
  Js.strip (fun c => Js.is_ws c || Ascii.eqb c "-" || Ascii.eqb c "_")%char
           (Js.toLowerCase (default "" str)).

Definition first_some {A} (a b : option A) : option A :=
  match a with
  | Some _ => a
  | None => b
  end.

(** Exact match on the property key, else exact match on the label, else
    substring match on either after normalization; in each stage the
    first match wins. *)
Definition resolveFilter (filters : list FilterDescriptor) (query : string)
  : option FilterDescriptor :=
  first_some
    (List.find (fun f => String.eqb (propertyKey f) query) filters)
    (first_some
       (List.find (fun f => is_str (label f) query) filters)
       (List.find
          (fun f =>
             Js.includes (specNormalize (Some (propertyKey f)))
                         (specNormalize (Some query))
             || Js.includes (specNormalize (label f)) (specNormalize (Some query)))
          filters)).

(** *** Two filters of a travel list *)

Definition inputFilter (key lbl : string) : FilterDescriptor :=
  {| propertyKey := key;
     label := Some lbl;
     filterFieldId := Some ("App--fe::FilterBar::Travel::FilterField::" +:+ key);
     filterLocalId := Some ("fe::FilterBar::Travel::FilterField::" +:+ key);
     selectors :=
       {| filterFieldCss :=
            Some ("#" +:+ Codec.cssEscape ("App--fe::FilterBar::Travel::FilterField::" +:+ key));
          inputCss :=
            Some ("#" +:+ Codec.cssEscape ("App--fe::FilterBar::Travel::FilterField::"
                                             +:+ key +:+ "-inner-inner"));
          selectCss := None;
          dateCss := None |} |}.

Definition travelFilters : list FilterDescriptor :=
  [inputFilter "TravelID" "Identifier"; inputFilter "Travel" "Trip"].

End Resolver.

(** ** The lookup of [setFilter] as the generator writes it *)

Module Generator.
Import Reconciler.

(** The class of the regular expression of [normalize] in
    generate-mcp-server.js: the hyphen, the underscore and white space.  The
    generator holds the server in a template literal, which drops the
    backslash of the class: the server it emits has the class of
    [Resolver.stripped]. *)
Definition stripped (c : ascii) : bool :=
  match c with
  | "-" | "_" => true
  | _ => Js.is_ws c
  end%char.

(** [(str || '').toLowerCase().replace(/[-_\s]/g, '')] *)
Definition normalize (str : option string) : string :=
  Js.strip stripped (Js.toLowerCase (default "" str)).

(** The normalized property key or the normalized label of [f] contains
    the normalized query. *)
Definition contains (query : string) (f : FilterDescriptor) : bool :=
  Js.includes (normalize (Some (propertyKey f))) (normalize (Some query))
  || Js.includes (normalize (label f)) (normalize (Some query)).


End Generator.

(** ** Control scanner: [extractUi5Controls] *)

Module Scanner.

(** *** Calls that may raise *)

Inductive call (A : Type) : Type :=
| Ret (a : A)
| Raise.
Arguments Ret {A} a.
Arguments Raise {A}.

Definition bind {A B : Type} (m : call A) (k : A -> call B) : call B :=
  match m with
  | Ret a => k a
  | Raise => Raise
  end.

Notation "x <- m ;; k" := (bind m (fun x => k))
  (at level 100, m at next level, right associativity).

(** [try { v = m } catch (e) { v = fallback }] *)
Definition try {A : Type} (m : call A) (fallback : A) : A :=
  match m with
  | Ret a => a
  | Raise => fallback
  end.

(** A method that the object may not have: [typeof o.m === 'function']. *)
Definition method (A : Type) : Type := option (call A).

(** [o.m?.()] *)
Definition optcall {A : Type} (m : method (option A)) : call (option A) :=
  match m with
  | Some c => c
  | None => Ret None
  end.

(** *** The registry *)

(** A value handed to [toStringSafe]. *)
Inductive value : Type :=
| VNone                                     (* [null] or [undefined] *)
| VString (s : string)
| VPrim (shown : string)                    (* a number or a boolean, with [String(val)] *)
| VObject (getText : method (option string)).

Record DomRef : Set := {
  attrRole : option string;
  attrAriaLabel : option string;
  attrAriaDescribedBy : option string;
  attrDataSapUi : option string
}.

(** What the class sniffing finds below the DOM node of a filter item: the
    id of the element, when there is one. *)
Record ItemDom : Set := {
  inputEl : option string;       (* [.sapMInputBaseInner] *)
  selectEl : option string;      (* [.sapMSlt] *)
  dateEl : option string         (* [.sapMDateRangeSelection, .sapMDatePicker] *)
}.

Record Item : Type := {
  itGetId : method (option string);
  itGetDomRef : method (option (call ItemDom));
  itGetName : call (option string);         (* [item.getMetadata?.().getName?.()] *)
  itLabels : option (call (list value));    (* texts of the referencing labels *)
  itGetPropertyKey : method (option string);
  itGetFieldPath : method (option string)
}.

Record Entry : Type := {
  getName : call (option string);           (* [control.getMetadata?.()?.getName?.()] *)
  getId : method (option string);
  getDomRef : method (option DomRef);
  getVisible : method (option bool);
  getEnabled : method (option bool);
  getPlaceholder : method value;
  getValue : method value;
  getText : method value;
  getTitle : method value;
  getLabel : method value;
  getTooltip : method value;
  (** the keys of [mBindingInfos] with [getBinding(key)?.getPath()] *)
  bindingInfos : option (list (string * call (option string)));
  labels : option (call (list value));      (* texts of the referencing labels *)
  getItems : method (option nat);           (* the length of the result *)
  getRows : method (option nat);
  getColumns : method (option nat);
  getBasicSearch : method bool;             (* whether the result is truthy *)
  getFilterItems : method (option (list Item))
}.

(** *** The scanned controls *)

Record ItemInfo : Set := {
  itemId : option string;
  itemLocalId : option string;
  itemType : option string;
  itemLabelText : option string;
  itemPropertyKey : option string;
  innerRoleHint : option string;
  innerIds : option string * option string * option string
}.

Record FilterBarInfo : Set := {
  basicSearchPresent : bool;
  filterItemCount : nat;
  items : list ItemInfo
}.

Record TableInfo : Set := {
  rowCount : option nat;
  columnCount : option nat
}.

Record Control : Set := {
  id : option string;
  type : option string;
  role : option string;
  roleHint : option string;
  text : option string;
  labelText : option string;
  value_ : option string;
  placeholder : option string;
  tooltip : option string;
  visible : bool;
  enabled : bool;
  ariaLabel : option string;
  ariaDescribedBy : option string;
  bindingPaths : list (string * string);
  localId : option string;
  cssId : string;
  dataSapUi : option string;
  tableInfo : option TableInfo;
  filterBarInfo : option FilterBarInfo
}.

Record ScanResult : Set := {
  ready : bool;
  controls : list Control
}.

(** *** The helpers of the scan *)

Definition startsAny (prefixes : list string) (typeName : option string) : bool :=
  match typeName with
  | Some (String c t) => existsb (Js.startsWith (String c t)) prefixes
  | _ => false
  end.

Definition isInteractive (typeName : option string) : bool :=
  startsAny
    ["sap.m.Button"; "sap.m.OverflowToolbarButton"; "sap.m.MenuButton";
     "sap.m.Link"; "sap.m.Input"; "sap.m.SearchField"; "sap.m.TextArea";
     "sap.m.Select"; "sap.m.ComboBox"; "sap.m.MultiComboBox"; "sap.m.CheckBox";
     "sap.m.RadioButton"; "sap.m.Switch"; "sap.m.DatePicker";
     "sap.m.DateRangeSelection"; "sap.m.SegmentedButton"; "sap.ui.table.Table";
     "sap.m.Table"; "sap.m.List"; "sap.ui.comp.smartfilterbar.SmartFilterBar";
     "sap.ui.mdc.FilterBar"; "sap.fe.macros.FilterBarAPI"; "sap.m.Dialog";
     "sap.f.Dialog"]
    typeName.

Definition isShellType (typeName : option string) : bool :=
  startsAny ["sap.ushell"; "sap.ui.core."] typeName.

(** [escapeCss]: the same replacement as [cssEscape]. *)
Definition escapeCss (id : option string) : option string :=
  Codec.cssEscape_opt id.

Definition toStringSafe (v : value) : option string :=
  match v with
  | VNone => None
  | VString s => Some s
  | VPrim shown => Some shown
  | VObject (Some c) => try c None
  | VObject None => None
  end.

(** [typeof c.m === 'function' ? toStringSafe(c.m()) : undefined] *)
Definition readValue (m : method value) : call (option string) :=
  match m with
  | Some c => v <- c ;; Ret (toStringSafe v)
  | None => Ret None
  end.

(** The text chain: the first accessor that exists is the one read. *)
Definition readText (control : Entry) : call (option string) :=
  match getText control, getTitle control, getLabel control with
  | Some c, _, _ => v <- c ;; Ret (toStringSafe v)
  | None, Some c, _ => v <- c ;; Ret (toStringSafe v)
  | None, None, Some c => v <- c ;; Ret (toStringSafe v)
  | None, None, None => Ret None
  end.

(** [toStringSafe(tt) || (tt && typeof tt.getText === 'function' ? tt.getText() : undefined)] *)
Definition readTooltip (control : Entry) : call (option string) :=
  match getTooltip control with
  | Some c =>
      tt <- c ;;
      if Js.truthy (toStringSafe tt) then Ret (toStringSafe tt)
      else
        match tt with
        | VObject (Some g) => g
        | _ => Ret None
        end
  | None => Ret None
  end.

(** The loop over the keys of [mBindingInfos]. *)
Fixpoint readBindings (infos : list (string * call (option string)))
    (paths : list (string * string)) : call (list (string * string)) :=
  match infos with
  | [] => Ret paths
  | (key, c) :: rest =>
      p <- c ;;
      match p with
      | Some path => readBindings rest (Rows.assign key path paths)
      | None => readBindings rest paths
      end
  end.

(** [labels.map(l => toStringSafe(l?.getText?.())).filter(Boolean).join(' ')] *)
Definition joinLabels (ls : list value) : string :=
  Js.join " " (omap (fun v => if Js.truthy (toStringSafe v) then toStringSafe v else None) ls).

Definition readLabels (ls : option (call (list value))) : option string :=
  match ls with
  | Some c => try (l <- c ;; Ret (Some (joinLabels l))) None
  | None => None
  end.

Definition opt_is (v : option string) (s : string) : bool :=
  match v with
  | Some w => String.eqb w s
  | None => false
  end.

Definition opt_sat (p : string -> bool) (v : option string) : bool :=
  match v with
  | Some w => p w
  | None => false
  end.

(** The classification of the role, first match first. *)
Definition classify (type role : option string) : option string :=
  if opt_sat (fun t => Js.startsWith t "sap.m.Button") type
     || opt_is role "button"
     || opt_sat (fun t => Js.includes t "MenuButton") type
  then Some "button"
  else if existsb (fun p => opt_sat (fun t => Js.startsWith t p) type)
            ["sap.m.Input"; "sap.m.SearchField"; "sap.m.TextArea";
             "sap.m.DatePicker"; "sap.m.DateRangeSelection"]
  then Some "input"
  else if existsb (fun p => opt_sat (fun t => Js.startsWith t p) type)
            ["sap.m.Select"; "sap.m.ComboBox"; "sap.m.MultiComboBox"]
  then Some "select"
  else if opt_sat (fun t => Js.includes t ".Table") type
          || opt_sat (fun t => Js.endsWith t ".List") type
  then Some "table"
  else if opt_sat (fun t => Js.includes t "FilterBar") type then Some "filterbar"
  else if opt_sat (fun t => Js.endsWith t ".Dialog") type || opt_is role "dialog"
  then Some "dialog"
  else if opt_sat (fun t => Js.includes t "Link") type then Some "link"
  else None.

(** [id?.includes('--') ? id.split('--').pop() : id] *)
Definition localIdOf (id : option string) : option string :=
  match id with
  | Some s => if Js.includes s "--" then Some (Js.splitLast "--" s) else Some s
  | None => None
  end.

Definition readTableInfo (control : Entry) : option TableInfo :=
  try (rows <- match getItems control, getRows control with
               | Some c, _ => c
               | None, Some c => c
               | None, None => Ret (Some 0)
               end ;;
       columns <- match getColumns control with
                  | Some c => c
                  | None => Ret (Some 0)
                  end ;;
       Ret (Some {| rowCount := rows; columnCount := columns |}))
      None.

(** The class sniffing below the DOM node of an item; a failure leaves
    both results unset. *)
Definition sniff (dom : option (call ItemDom))
  : option string * (option string * option string * option string) :=
  match dom with
  | Some (Ret d) =>
      (match selectEl d, dateEl d, inputEl d with
       | Some _, _, _ => Some "select"
       | None, Some _, _ => Some "date"
       | None, None, Some _ => Some "input"
       | None, None, None => None
       end,
       (inputEl d, selectEl d, dateEl d))
  | _ => (None, (None, None, None))
  end.

(** One filter item; [Raise] is the [catch] that drops the item. *)
Definition readItem (item : Item) : call ItemInfo :=
  itemId <- optcall (itGetId item) ;;
  itemDom <- optcall (itGetDomRef item) ;;
  itemType <- itGetName item ;;
  let itemLabel := readLabels (itLabels item) in
  propertyKey <- match itGetPropertyKey item, itGetFieldPath item with
                 | Some c, _ => c
                 | None, Some c => c
                 | None, None => Ret None
                 end ;;
  let '(hint, ids) := sniff itemDom in
  Ret {| itemId := itemId;
         itemLocalId := localIdOf itemId;
         itemType := itemType;
         itemLabelText := itemLabel;
         itemPropertyKey := propertyKey;
         innerRoleHint := hint;
         innerIds := ids |}.

Definition readFilterBarInfo (control : Entry) : option FilterBarInfo :=
  try (basicSearch <- match getBasicSearch control with
                      | Some c => c
                      | None => Ret false
                      end ;;
       filterItems <- optcall (getFilterItems control) ;;
       let its := default [] filterItems in
       Ret (Some {| basicSearchPresent := basicSearch;
                    filterItemCount := length its;
                    items := omap (fun it => match readItem it with
                                             | Ret info => Some info
                                             | Raise => None
                                             end) its |}))
      None.

(** [v || undefined] *)
Definition orUndefined (v : option string) : option string := Js.or_else v None.

(** The body of the callback of [registry.forEach], inside its [try]:
    [Ret None] is an early [return], [Raise] an exception that reaches the
    [catch] of the callback. *)
Definition extractControl (includeShell : bool) (control : Entry)
  : call (option Control) :=
  type <- getName control ;;
  id <- optcall (getId control) ;;
  domRef <- optcall (getDomRef control) ;;
  match domRef with
  | None => Ret None
  | Some dom =>
      if negb includeShell && isShellType type && negb (isInteractive type)
      then Ret None
      else
        visible <- optcall (getVisible control) ;;
        enabled <- optcall (getEnabled control) ;;
        let role := orUndefined (attrRole dom) in
        placeholder <- readValue (getPlaceholder control) ;;
        value <- readValue (getValue control) ;;
        let text := try (readText control) None in
        let tooltip := try (readTooltip control) None in
        bindingPaths <- match bindingInfos control with
                        | Some infos => readBindings infos []
                        | None => Ret []
                        end ;;
        let labelText := readLabels (labels control) in
        let roleHint := classify type role in
        let tableInfo :=
          if opt_is roleHint "table" then readTableInfo control else None in
        let filterBarInfo :=
          if opt_is roleHint "filterbar" then readFilterBarInfo control else None in
        Ret (Some
               {| id := id; type := type; role := role; roleHint := roleHint;
                  text := text; labelText := labelText; value_ := value;
                  placeholder := placeholder; tooltip := tooltip;
                  visible := default true visible;
                  enabled := default true enabled;
                  ariaLabel := orUndefined (attrAriaLabel dom);
                  ariaDescribedBy := orUndefined (attrAriaDescribedBy dom);
                  bindingPaths := bindingPaths;
                  localId := localIdOf id;
                  cssId := "#" +:+ Js.show (escapeCss id);
                  dataSapUi := orUndefined (attrDataSapUi dom);
                  tableInfo := tableInfo;
                  filterBarInfo := filterBarInfo |})
  end.

(** The callback with its [try]/[catch]: the state is the array
    [controls]; an exception leaves it as it is. *)
Definition visit (includeShell : bool) (controls : list Control) (control : Entry)
  : list Control :=
  match extractControl includeShell control with
  | Ret (Some c) => controls ++ [c]
  | Ret None => controls
  | Raise => controls
  end.

(** [extractUi5Controls]: the registry is absent when the framework is not
    loaded. *)
Definition extractUi5Controls (includeShell : bool) (registry : option (list Entry))
  : ScanResult :=
  match registry with
  | None => {| ready := false; controls := [] |}
  | Some entries =>
      {| ready := true; controls := foldl (visit includeShell) [] entries |}
  end.

(** An entry is faulty when its extraction raises. *)
Definition faulty (includeShell : bool) (control : Entry) : Prop :=
  extractControl includeShell control = Raise.

(** The control an entry contributes on its own. *)
Definition controlOf (includeShell : bool) (control : Entry) : option Control :=
  match extractControl includeShell control with
  | Ret r => r
  | Raise => None
  end.

(** *** A registry with an entry that raises *)

Definition rendered : DomRef :=
  {| attrRole := None; attrAriaLabel := None; attrAriaDescribedBy := None;
     attrDataSapUi := None |}.

(** An entry whose [getVisible] answers with [visible]. *)
Definition entry (i t : string) (visible : call (option bool)) : Entry :=
  {| getName := Ret (Some t);
     getId := Some (Ret (Some i));
     getDomRef := Some (Ret (Some rendered));
     getVisible := Some visible;
     getEnabled := None;
     getPlaceholder := None;
     getValue := None;
     getText := Some (Ret (VString i));
     getTitle := None;
     getLabel := None;
     getTooltip := None;
     bindingInfos := None;
     labels := None;
     getItems := None;
     getRows := None;
     getColumns := None;
     getBasicSearch := None;
     getFilterItems := None |}.

Definition mixedRegistry : list Entry :=
  [entry "App--go" "sap.m.Button" (Ret (Some true));
   entry "App--broken" "sap.m.Input" Raise;
   entry "App--list" "sap.m.Table" (Ret None)].

End Scanner.

(** ** Form field resolution: the matching of [fillFormField] *)

Module Forms.

(** A field as [fillFormField] collects it; [id], [label] and [fieldName]
    are strings, empty when nothing was found. *)
Record Field : Set := {
  id : string;
  label : string;
  fieldName : string;
  selector : string
}.

(** [(s || '').trim().toLowerCase()] with one trailing colon removed.  The
    class of the source also holds the full-width colon, which is no
    Latin-1 code unit. *)
Definition norm (s : string) : string :=
  Js.dropSuffix ":" (Js.toLowerCase (Js.trim s)).

(** [f.id.includes('FilterField')] *)
Definition isFilterField (f : Field) : bool := Js.includes (id f) "FilterField".

Definition exactName (target : string) (f : Field) : bool :=
  String.eqb (norm (fieldName f)) target.

Definition exactLabel (target : string) (f : Field) : bool :=
  String.eqb (norm (label f)) target.

Definition partial (target : string) (f : Field) : bool :=
  Js.includes (norm (fieldName f)) target
  || Js.includes (norm (label f)) target
  || Js.includes (norm (id f)) target.

(** [a; if (!matchedField) b] *)
Definition orTry (a b : option Field) : option Field :=
  match a with
  | Some _ => a
  | None => b
  end.

(** The three lookups of the list page, one after the other. *)
Definition anyField (fields : list Field) (target : string) : option Field :=
  orTry (List.find (exactName target) fields)
    (orTry (List.find (exactLabel target) fields)
       (List.find (partial target) fields)).

(** The field [fillFormField] fills: on an object page the three lookups
    first skip the filter fields, and fall back to all the fields. *)
Definition matchField (fields : list Field) (isObjectPage : bool) (fieldName : string)
  : option Field :=
  let target := norm fieldName in
  if isObjectPage then
    orTry (List.find (fun f => exactName target f && negb (isFilterField f)) fields)
      (orTry (List.find (fun f => exactLabel target f && negb (isFilterField f)) fields)
         (orTry (List.find (fun f => negb (isFilterField f) && partial target f) fields)
            (anyField fields target)))
  else anyField fields target.

(** *** The fields [fillFormField] collects from the page *)

(** [input[type="text"], input[type="number"], input[type="email"],
    input[type="tel"], textarea, select] *)
Definition inputSel : Dom.selector :=
  [Dom.only [Dom.Tag "input"; Dom.AttrIs "type" "text"];
   Dom.only [Dom.Tag "input"; Dom.AttrIs "type" "number"];
   Dom.only [Dom.Tag "input"; Dom.AttrIs "type" "email"];
   Dom.only [Dom.Tag "input"; Dom.AttrIs "type" "tel"];
   Dom.only [Dom.Tag "textarea"]; Dom.only [Dom.Tag "select"]].

(** [.sapUiMdcFilterBar, .sapMFilterBar] *)
Definition filterBarSel : Dom.selector :=
  [Dom.only [Dom.Class "sapUiMdcFilterBar"]; Dom.only [Dom.Class "sapMFilterBar"]].

(** [el.closest(sel)] is there: the element or one of its ancestors, the
    nearest first, matches [sel].  The match of an element looks at the
    element and at its ancestors, not at what is below it. *)
Fixpoint closestFrom (sel : Dom.selector) (e : Dom.element) (anc : list Dom.element)
  : bool :=
  Dom.matches sel {| Dom.ancestors := anc; Dom.self := e; Dom.kids := [] |}
  || match anc with
     | [] => false
     | a :: up => closestFrom sel a up
     end.

Definition closest (sel : Dom.selector) (l : Dom.loc) : bool :=
  closestFrom sel (Dom.self l) (Dom.ancestors l).

(** [!input.id.includes('FilterField') && !input.closest(...)] *)
Definition eligible (input : Dom.loc) : bool :=
  negb (Js.includes (Dom.eid (Dom.self input)) "FilterField")
  && negb (closest filterBarSel input).

(** [/[-_]/g] *)
Definition hyphenOrUnderscore (c : ascii) : bool :=
  match c with
  | "-" | "_" => true
  | _ => false
  end%char.

Section Collect.

(** The label element the code finds for an input: the element its
    [aria-labelledby] names, else the label of the form element around it,
    else the element before it. *)
Variable labelOf : Dom.loc -> option Dom.loc.

(** [CSS.escape] of the browser. *)
Variable cssEscapeOfBrowser : string -> string.

(** The body of [inputs.forEach]. *)
Definition fieldOf (input : Dom.loc) : Field :=
  let inputId := Dom.eid (Dom.self input) in
  let labelText :=
    match labelOf input with
    | Some l => Js.dropSuffix ":" (Js.trim (Dom.text l))
    | None => EmptyString
    end in
  let fromLabel := Js.strip Js.is_ws (Js.toLowerCase labelText) in
  {| id := inputId;
     label := labelText;
     fieldName :=
       match fromLabel, inputId with
       | EmptyString, String c r =>
           Js.strip hyphenOrUnderscore (Js.toLowerCase (Js.splitLast "::" inputId))
       | _, _ => fromLabel
       end;
     selector :=
       match inputId with
       | EmptyString => EmptyString
       | _ => "#" +:+ cssEscapeOfBrowser inputId
       end |}.

Definition collectFields (doc : Dom.document) : list Field :=
  fieldOf <$> List.filter eligible (Dom.docQuerySelectorAll inputSel doc).

(** [fillFormField] up to the field it fills: [None] is the error
    [Field not found]. *)
Definition resolveField (doc : Dom.document) (fieldName : string) : option Field :=
  matchField (collectFields doc)
    (Executor.present (Dom.docQuerySelector Executor.objectPageSel doc)) fieldName.

End Collect.

End Forms.

(** ** Readiness: the wait of [pressGo] for rendered rows *)

Module Readiness.
Import Dom.

(** The predicate [pressGo] waits for before it reads the rows: the first
    results table has a body row with a data cell. *)
Definition rowsRendered (doc : document) : bool :=
  match docQuerySelector Rows.tableSel doc with
  | None => false
  | Some tbl =>
      existsb
        (fun row => (0 <? length (querySelectorAll Rows.dataCellSel row))%nat)
        (querySelectorAll Rows.bodyRowSel tbl)
  end.

End Readiness.

(** ** The column settings dialog: the pass of the scanner that reads the
    columns of a table from its settings dialog *)

Module Settings.
Import Dom.

(** [#__panel0-innerSelectionPanelTable-listUl tbody tr] *)
Definition panelRowSel : selector :=
  [{| subject := [Tag "tr"];
      within := [[Tag "tbody"]; [IdIs "__panel0-innerSelectionPanelTable-listUl"]] |}].

(** [.sapMLabelTextWrapper bdi] *)
Definition labelSel : selector := [inside [Class "sapMLabelTextWrapper"] [Tag "bdi"]].

(** [rows.map(r => bdi ? bdi.textContent.trim() : undefined).filter(Boolean)] *)
Definition dialogLabels (doc : document) : list string :=
  omap (fun r =>
          match querySelector labelSel r with
          | Some bdi =>
              match Js.trim (text bdi) with
              | EmptyString => None
              | l => Some l
              end
          | None => None
          end)
       (docQuerySelectorAll panelRowSel doc).

(** [btnId.replace(/-settings$/, '')] *)
Definition settingsTableId (btnId : string) : string :=
  Js.dropSuffix "-settings" btnId.

(** The entry pushed for the settings button [btnId] once its dialog is
    open: [{ tableId, columns: labels }]. *)
Definition p13nOf (btnId : string) (dialog : document) : Reconciler.P13n :=
  {| Reconciler.p13nTableId := settingsTableId btnId;
     Reconciler.p13nColumns := Some (dialogLabels dialog) |}.

End Settings.

(** ** A list report: the scan of a page with a filter bar and a table *)

Module Samples.
Import Reconciler.

Definition tableRoot : Control :=
  ctl "App--fe::table::Items::LineItem" "sap.ui.mdc.Table" None.

Definition createButton : Control :=
  ctl "App--fe::table::Items::LineItem::StandardAction::Create" "sap.m.Button"
      (Some "Create").

Definition approveButton : Control :=
  ctl "App--fe::table::Items::LineItem::CustomAction::Approve" "sap.m.Button"
      (Some "Approve").

Definition settingsButton : Control :=
  ctl "App--fe::table::Items::LineItem-settings" "sap.m.OverflowToolbarButton" None.

Definition priceColumn : Control :=
  ctl "App--fe::table::Items::LineItem::C::Price" "sap.ui.mdc.table.Column" None.

Definition priceInnerColumn : Control :=
  ctl "App--fe::table::Items::LineItem::C::Price-innerColumn" "sap.m.Column" None.

Definition filterItem (key lbl : string) : FilterItem :=
  {| itemId := Some ("App--fe::FilterBar::Items::FilterField::" +:+ key);
     itemLocalId := Some ("fe::FilterBar::Items::FilterField::" +:+ key);
     itemLabelText := Some lbl;
     itemPropertyKey := Some key;
     innerIds :=
       Some {| inputId := Some ("App--fe::FilterBar::Items::FilterField::" +:+ key
                                  +:+ "-inner-inner");
               selectId := None;
               dateId := None |} |}.

(** A filter bar in which the key [AgencyID] occurs twice. *)
Definition filterBar : Control :=
  {| id := Some "App--fe::FilterBar::Items";
     type := Some "sap.ui.mdc.FilterBar";
     roleHint := Some "filterbar";
     text := None; labelText := None;
     localId := Some "fe::FilterBar::Items";
     bindingConditions := None;
     filterBarInfo :=
       Some {| filterItemCount := Some 3;
               items := Some [filterItem "AgencyID" "Agency";
                              filterItem "Status" "Status";
                              filterItem "AgencyID" "Agency again"] |} |}.

Definition listScan : Scan :=
  {| controls :=
       [filterBar; tableRoot; priceColumn; priceInnerColumn;
        createButton; approveButton; settingsButton];
     tablesP13n :=
       [{| p13nTableId := "App--fe::table::Items::LineItem";
           p13nColumns := Some ["Price"; "Currency"] |}] |}.

(** The settings dialog of the table, with two columns listed. *)
Definition settingsDialog : Dom.document :=
  [Dom.Elem (Rows.el "table" "__panel0-innerSelectionPanelTable-listUl" [] [])
     [Dom.Elem (Rows.el "tbody" "" [] [])
        [Dom.Elem (Rows.el "tr" "" [] [])
           [Dom.Elem (Rows.el "div" "" ["sapMLabelTextWrapper"] [])
              [Dom.Elem (Rows.el "bdi" "" [] []) [Dom.Text " Price "]]];
         Dom.Elem (Rows.el "tr" "" [] [])
           [Dom.Elem (Rows.el "div" "" ["sapMLabelTextWrapper"] [])
              [Dom.Elem (Rows.el "bdi" "" [] []) [Dom.Text "Currency"]]]]]].

End Samples.

(** ** A registry with a filter bar, one item of which raises, and pages
    with a message strip, a dialog and a form *)

Module Fixtures.
Import Scanner.

Definition fieldItem (key : string) (name : call (option string)) : Item :=
  {| itGetId := Some (Ret (Some ("App--fe::FilterBar::Items::FilterField::" +:+ key)));
     itGetDomRef := None;
     itGetName := name;
     itLabels := None;
     itGetPropertyKey := Some (Ret (Some key));
     itGetFieldPath := None |}.

Definition filterBarEntry : Entry :=
  {| getName := Ret (Some "sap.ui.mdc.FilterBar");
     getId := Some (Ret (Some "App--fe::FilterBar::Items"));
     getDomRef := Some (Ret (Some rendered));
     getVisible := None;
     getEnabled := None;
     getPlaceholder := None;
     getValue := None;
     getText := None;
     getTitle := None;
     getLabel := None;
     getTooltip := None;
     bindingInfos := None;
     labels := None;
     getItems := None;
     getRows := None;
     getColumns := None;
     getBasicSearch := None;
     getFilterItems :=
       Some (Ret (Some [fieldItem "AgencyID" (Ret (Some "sap.ui.mdc.FilterField"));
                        fieldItem "Broken" Raise;
                        fieldItem "Status" (Ret (Some "sap.ui.mdc.FilterField"))])) |}.

(** A control of the shell that is not interactive, and the button of the
    page. *)
Definition shellRegistry : list Entry :=
  [entry "shell-header" "sap.ushell.ui.ShellHeader" (Ret (Some true));
   entry "App--go" "sap.m.Button" (Ret (Some true));
   filterBarEntry].

(** A page with one message strip. *)
Definition stripPage : Dom.document :=
  [Dom.Elem (Rows.el "div" "strip" ["sapMMessageStrip"; "sapMMessageStripError"] [])
     [Dom.Text " Saved with errors "]].

(** A page with the form dialog only. *)
Definition dialogPage : Dom.document :=
  [Dom.Elem (Rows.el "body" "" [] []) [Executor.formDialog]].

(** A form of an object page: an input, and an input of a filter bar. *)
Definition formPage : Dom.document :=
  [Dom.Elem (Rows.el "div" "App--ObjectPage" ["sapUxAPObjectPageLayout"] [])
     [Dom.Elem (Rows.el "input" "App--fe::Form::Agency::Field-edit-inner" []
                  [("type", "text")]) [];
      Dom.Elem (Rows.el "div" "bar" ["sapUiMdcFilterBar"] [])
        [Dom.Elem (Rows.el "input" "App--fe::FilterBar::FilterField::Agency-inner" []
                     [("type", "text")]) []]]].

End Fixtures.

(** ** What the reconciler keeps: the shapes of its results *)

Module Shapes.
Import Reconciler.

(** What holds of the deduplicating loop of [extractFilters] after the
    items [items]: every descriptor comes from the first item of its key,
    and every item with a key has its key among the descriptors. *)
Definition firstWins (items : list FilterItem) (result : list FilterDescriptor) : Prop :=
  (forall d, d ∈ result ->
     propertyKey d <> EmptyString
     /\ exists before it after,
          items = before ++ it :: after
          /\ keyOf it = Some (propertyKey d)
          /\ d = descriptorOf (propertyKey d) it
          /\ forall j, j ∈ before -> keyOf j <> Some (propertyKey d))
  /\ (forall it k,
        it ∈ items -> keyOf it = Some k -> k <> EmptyString ->
        k ∈ propertyKey <$> result).

(** The shape of a column that [extractTables] builds for the table of id
    [basePrefix]. *)
Definition scanned (basePrefix : string) (c : Column) : Prop :=
  colPropertyKey c <> EmptyString
  /\ Js.includes (colPropertyKey c) "-" = false
  /\ colLabel c <> EmptyString
  /\ headerColumnId c
     = Some (basePrefix +:+ "::C::" +:+ colPropertyKey c +:+ "-innerColumn")
  /\ headerColumnCss c
     = Some ("#" +:+ Codec.cssEscape (basePrefix +:+ "::C::" +:+ colPropertyKey c
                                        +:+ "-innerColumn")).

(** The table [x'] is the table [x] with columns added behind its own,
    each known by its label only. *)
Definition kept (x x' : TableDescriptor) : Prop :=
  tableId x' = tableId x
  /\ innerTableId x' = innerTableId x
  /\ listUlId x' = listUlId x
  /\ tableSelectors x' = tableSelectors x
  /\ actions x' = actions x
  /\ customActions x' = customActions x
  /\ exists added,
       columns x' = columns x ++ added
       /\ Forall (fun c => exists l, c = labelOnly l) added.

(** A result without the name of the dialog. *)
Definition withoutDialogId (r : Executor.ActionResult) : Executor.ActionResult :=
  match r with
  | Executor.PopupDialog _ fields => Executor.PopupDialog None fields
  | _ => r
  end.

End Shapes.

(** * Properties *)

#[local] Arguments String.append : simpl nomatch.

(** ** Strings *)

Module JsFacts.
Import Js.

Lemma startsWith_refl s : startsWith s s = true.
Proof.
  induction s as [|c s IH]; simpl; [done|].
  by rewrite Ascii.eqb_refl, IH.
Qed.

Lemma startsWith_nil s : startsWith s "" = true.
Proof. by destruct s. Qed.

Lemma startsWith_app s t : startsWith (s +:+ t) s = true.
Proof.
  induction s as [|c s IH]; simpl; [apply startsWith_nil|].
  by rewrite Ascii.eqb_refl, IH.
Qed.

Lemma includes_app_r s t u : includes t u = true -> includes (s +:+ t) u = true.
Proof.
  intros H. induction s as [|c s IH]; simpl; [done|].
  rewrite IH. apply orb_true_r.
Qed.

Lemma includes_app_l s t : includes (s +:+ t) s = true.
Proof.
  destruct s as [|c s]; simpl.
  - by destruct t.
  - by rewrite Ascii.eqb_refl, startsWith_app.
Qed.

(** A text occurs in whatever is written around it. *)
Lemma includes_middle a s b : includes (a +:+ s +:+ b) s = true.
Proof. apply includes_app_r, includes_app_l. Qed.

Lemma app_assoc (a b c : string) : (a +:+ b) +:+ c = a +:+ b +:+ c.
Proof. induction a as [|x a IH]; simpl; [done|]. by rewrite IH. Qed.


Lemma length_app (a b : string) :
  String.length (a +:+ b) = String.length a + String.length b.
Proof. induction a as [|x a IH]; simpl; [done|]. by f_equal. Qed.

Lemma includes_refl s : includes s s = true.
Proof. destruct s; simpl; [done|]. by rewrite Ascii.eqb_refl, startsWith_refl. Qed.

Lemma startsWith_app_l s t u : startsWith s u = true -> startsWith (s +:+ t) u = true.
Proof.
  revert u. induction s as [|c s IH]; intros [|d u]; simpl; try done.
  - by destruct t.
  - intros [Hc Hs]%andb_true_iff. by rewrite Hc, IH.
Qed.


End JsFacts.

(** ** Identifier codec *)

Module CodecFacts.
Import Js Codec.

Lemma cssEscape_app s t : cssEscape (s +:+ t) = cssEscape s +:+ cssEscape t.
Proof.
  induction s as [|c s IH]; simpl; [done|].
  destruct (special c); simpl; by rewrite IH.
Qed.

Lemma cssEscape_cons c s : cssEscape (String c s) = escaped c +:+ cssEscape s.
Proof. unfold escaped. simpl. by destruct (special c). Qed.

Lemma special_listed_or_colon c :
  special c = listed c || Ascii.eqb c ":"%char.
Proof. by destruct c as [[] [] [] [] [] [] [] []]. Qed.

Lemma cssEscape_length id :
  String.length (cssEscape id) = String.length id + count special id.
Proof.
  induction id as [|c s IH]; simpl; [done|].
  destruct (special c); simpl; rewrite IH; lia.
Qed.

Lemma cssEscape_noop id : all (fun c => negb (special c)) id = true -> cssEscape id = id.
Proof.
  induction id as [|c s IH]; simpl; [done|].
  intros [Hc Hs]%andb_true_iff. apply negb_true_iff in Hc.
  by rewrite Hc, IH.
Qed.

(** C5, as the specification states it, fails: the colon is not among the
    characters the specification lists, yet [cssEscape] escapes it, so an id
    with none of the listed characters is not always returned unchanged. *)
Lemma cssEscape_colon_not_unchanged :
  all (fun c => negb (listed c)) "fe::FilterBar" = true
  /\ cssEscape "fe::FilterBar" = "fe\:\:FilterBar"
  /\ cssEscape "fe::FilterBar" <> "fe::FilterBar".
Proof. split; [reflexivity | split; [reflexivity | discriminate]]. Qed.

(** C5, amended: the escaped characters are the listed ones and the colon.
    Wherever a character stands in an id, [cssEscape] writes it after one
    backslash when it is one of these and as it is otherwise, so the result
    is longer than the id by the number of such occurrences; an id with none
    of the listed characters and no colon is returned unchanged. *)
Theorem cssEscape_prefixes_each_special_once :
  (forall s1 c s2,
      cssEscape (s1 +:+ String c s2) = cssEscape s1 +:+ escaped c +:+ cssEscape s2)
  /\ (forall c,
        escaped c =
          if listed c || Ascii.eqb c ":"%char
          then String backslash (String c "") else String c "")
  /\ (forall id, String.length (cssEscape id) = String.length id + count special id)
  /\ (forall id,
        all (fun c => negb (listed c) && negb (Ascii.eqb c ":"%char)) id = true ->
        cssEscape id = id).
Proof.
  split; [|split; [|split]].
  - intros s1 c s2. by rewrite cssEscape_app, cssEscape_cons.
  - intros c. unfold escaped. by rewrite special_listed_or_colon.
  - apply cssEscape_length.
  - intros id. induction id as [|c s IH]; simpl; [done|].
    intros [[H1 H2]%andb_true_iff Hs]%andb_true_iff.
    apply negb_true_iff in H1, H2.
    rewrite special_listed_or_colon, H1, H2. simpl. by rewrite IH.
Qed.

Lemma cssEscape_prefixes_each_special_once_witness :
  cssEscape ("a" +:+ String "#"%char "b") = "a" +:+ "\#" +:+ "b"
  /\ cssEscape "btnSearch-inner_1" = "btnSearch-inner_1".
Proof.
  destruct cssEscape_prefixes_each_special_once as (Hmid & _ & _ & Hnoop).
  split.
  - exact (Hmid "a" "#"%char "b").
  - apply Hnoop. reflexivity.
Defined.

End CodecFacts.

(** ** Action classification *)

Module ActionsFacts.
Import Actions.

(** C10: a [null], [undefined] or empty id is classified [unknown], a tag
    outside the three of the taxonomy; every non-empty id is classified
    [standard], [custom] or [custom_candidate]. *)
Theorem classifyActionId_unknown_only_without_id :
  classifyActionId None = unknown
  /\ classifyActionId (Some "") = unknown
  /\ (forall id, id <> "" ->
        classifyActionId (Some id) = standard
        \/ classifyActionId (Some id) = custom
        \/ classifyActionId (Some id) = custom_candidate).
Proof.
  split; [done|split; [done|]].
  intros [|c s] Hne; [done|]. unfold classifyActionId.
  repeat case_match; auto.
Qed.

Lemma classifyActionId_unknown_only_without_id_witness :
  classifyActionId (Some "App::table::Items::LineItem-settings") = standard
  \/ classifyActionId (Some "App::table::Items::LineItem-settings") = custom
  \/ classifyActionId (Some "App::table::Items::LineItem-settings") = custom_candidate.
Proof.
  destruct classifyActionId_unknown_only_without_id as (_ & _ & H).
  apply H. discriminate.
Defined.

(** The three tags of the taxonomy are all reached. *)
Lemma classifyActionId_examples :
  classifyActionId (Some "App::table::Items::LineItem::StandardAction::Create") = standard
  /\ classifyActionId (Some "App::table::Items::LineItem::CustomAction::Approve") = custom
  /\ classifyActionId (Some "App::table::Items::LineItem-toolbar-refresh") = custom_candidate.
Proof. repeat split. Qed.

End ActionsFacts.

(** ** Metadata reconciler *)

Module ReconcilerFacts.
Import Reconciler.

(** *** The primary filter bar *)





(** Of two filter bars with five items, the one scanned first is taken. *)
Lemma primaryFilterBar_tie :
  primaryFilterBar [bar "fb1" 2; bar "fb2" 5; bar "fb3" 5; bar "fb4" 1]
  = Some (bar "fb2" 5).
Proof. reflexivity. Qed.

(** *** The merge of the dialog columns *)

Lemma mergeColumns_snoc cols labels l :
  mergeColumns cols (labels ++ [l]) =
    if bool_decide (l ∈ colLabel <$> cols)
    then mergeColumns cols labels
    else mergeColumns cols labels ++ [labelOnly l].
Proof.
  unfold mergeColumns. rewrite foldl_app. simpl.
  destruct (bool_decide (l ∈ colLabel <$> cols)) eqn:Hin.
  - apply bool_decide_eq_true in Hin.
    rewrite bool_decide_eq_true_2; [done|]. by apply elem_of_list_to_set.
  - apply bool_decide_eq_false in Hin.
    rewrite bool_decide_eq_false_2; [done|]. by rewrite elem_of_list_to_set.
Qed.

Lemma mergeColumns_extends cols labels :
  exists added, mergeColumns cols labels = cols ++ added
                /\ forall c, c ∈ added ->
                     exists l, c = labelOnly l /\ l ∈ labels /\ l ∉ colLabel <$> cols.
Proof.
  induction labels as [|l labels IH] using rev_ind.
  - exists []. split; [by rewrite app_nil_r|]. intros c Hc. inversion Hc.
  - destruct IH as (added & Heq & Hadded). rewrite mergeColumns_snoc.
    case_bool_decide as Hin.
    + exists added. split; [done|]. intros c Hc.
      destruct (Hadded c Hc) as (l' & -> & Hl' & Hnew).
      exists l'. repeat split; [|done]. apply elem_of_app. by left.
    + exists (added ++ [labelOnly l]). split; [by rewrite Heq, app_assoc|].
      intros c [Hc|Hc]%elem_of_app.
      * destruct (Hadded c Hc) as (l' & -> & Hl' & Hnew).
        exists l'. repeat split; [|done]. apply elem_of_app. by left.
      * apply list_elem_of_singleton in Hc as ->. exists l.
        repeat split; [|done]. apply elem_of_app. right. by apply list_elem_of_singleton.
Qed.

(** C4 fails when a label stands twice in the list of the dialog.  The
    set of the existing labels is built before the merge and is not extended
    while merging: the second occurrence of [New] is handled when a column
    labelled [New] is in the list, and it is appended once more.  For a
    table with the column [Price] and a dialog that lists [Price], [New] and
    [New], the table that is written has two columns labelled [New]. *)
Theorem dialog_merge_appends_repeated_label :
  (fun t => colLabel <$> columns t) <$> tables (reconcile repeatedLabelScan)
    = [["Price"; "New"; "New"]]
  /\ (forall t, t ∈ tables (reconcile repeatedLabelScan) ->
        ~ NoDup (colLabel <$> columns t))
  /\ (forall t, t ∈ extractTables (controls repeatedLabelScan) ->
        "New" ∈ colLabel <$> mergeColumns (columns t) ["Price"; "New"]
        /\ mergeColumns (columns t) (["Price"; "New"] ++ ["New"])
           = mergeColumns (columns t) ["Price"; "New"] ++ [labelOnly "New"]).
Proof.
  split; [by vm_compute|split].
  - intros t Ht. vm_compute in Ht.
    apply list_elem_of_singleton in Ht as ->. simpl.
    intros Hnd. apply NoDup_cons in Hnd as [_ Hnd].
    apply NoDup_cons in Hnd as [Hnotin _].
    apply Hnotin, list_elem_of_here.
  - intros t Ht. vm_compute in Ht.
    apply list_elem_of_singleton in Ht as ->. split; [|by vm_compute].
    vm_compute. apply list_elem_of_further, list_elem_of_here.
Qed.

(** The merge reaches the first table the dialog entry designates, and
    that table only: its columns become the merged ones, its other fields
    but the source mark stay. *)
Lemma mergeInto_first_target t tables :
  match List.find (isTarget t) tables with
  | None => mergeInto t tables = tables
  | Some x =>
      exists before after x',
        tables = before ++ x :: after
        /\ mergeInto t tables = before ++ x' :: after
        /\ columns x' = mergeColumns (columns x) (default [] (p13nColumns t))
        /\ tableId x' = tableId x
        /\ actions x' = actions x
  end.
Proof.
  induction tables as [|y tables IH]; simpl; [done|].
  destruct (isTarget t y) eqn:Hy.
  - eexists [], tables, _. repeat split.
  - destruct (List.find (isTarget t) tables) as [x|].
    + destruct IH as (before & after & x' & -> & -> & Hcols & Hid & Hact).
      by exists (y :: before), after, x'.
    + by rewrite IH.
Qed.

(** *** Deduplication *)

Lemma deduped_empty {A : Type} (key : A -> string) : deduped key (∅, []).
Proof.
  split; simpl; [|constructor].
  intros k. split; intros H; [set_solver|inversion H].
Qed.

Lemma deduped_push {A : Type} (key : A -> string) seen result x :
  deduped key (seen, result) -> key x ∉ seen ->
  deduped key ({[key x]} ∪ seen, result ++ [x]).
Proof.
  intros [Hseen Hnodup] Hfresh. simpl in *. split; simpl.
  - intros k. rewrite fmap_app, elem_of_app, elem_of_union, elem_of_singleton.
    simpl. rewrite list_elem_of_singleton, Hseen. tauto.
  - rewrite fmap_app. simpl. apply NoDup_app. repeat split; [done| |apply NoDup_singleton].
    intros k Hk ->%list_elem_of_singleton. by apply Hfresh, Hseen.
Qed.

Lemma dedupStep_deduped st it :
  deduped propertyKey st -> deduped propertyKey (dedupStep st it).
Proof.
  destruct st as [seen result]. intros Hst. unfold dedupStep.
  destruct (keyOf it) as [[|c k]|]; try done.
  case_bool_decide as Hin; [done|].
  by apply (deduped_push propertyKey seen result (descriptorOf (String c k) it)).
Qed.

Lemma columnStep_deduped basePrefix colIdControls st c :
  deduped colPropertyKey st ->
  deduped colPropertyKey (columnStep basePrefix colIdControls st c).
Proof.
  destruct st as [seen result]. intros Hst. unfold columnStep.
  destruct (Js.splitSecond _ _) as [[|a r]|]; try done.
  destruct (Js.splitFirst "-" (String a r)) as [|a' key] eqn:Hkey; [done|].
  case_bool_decide as Hin; [done|].
  match goal with
  | |- deduped _ (_, _ ++ [?x]) =>
      apply (deduped_push colPropertyKey seen result x)
  end; done.
Qed.

Lemma foldl_deduped {A B : Type} (key : A -> string)
    (step : gset string * list A -> B -> gset string * list A) :
  (forall st x, deduped key st -> deduped key (step st x)) ->
  forall xs st, deduped key st -> deduped key (foldl step st xs).
Proof.
  intros Hstep xs. induction xs as [|x xs IH]; simpl; [done|].
  intros st Hst. by apply IH, Hstep.
Qed.

(** After the deduplication of [extractFilters] no two filter descriptors
    share a property key. *)
Lemma extractFilters_keys_unique controls :
  NoDup (propertyKey <$> extractFilters controls).
Proof.
  unfold extractFilters.
  apply (foldl_deduped propertyKey dedupStep dedupStep_deduped), deduped_empty.
Qed.

(** After the deduplication of [extractTables] no two columns of a table
    share a property key. *)
Lemma extractTables_keys_unique controls t :
  t ∈ extractTables controls -> NoDup (colPropertyKey <$> columns t).
Proof.
  unfold extractTables. intros (root & -> & _)%list_elem_of_fmap. simpl.
  unfold tableColumns.
  apply (foldl_deduped colPropertyKey (columnStep _ _)); [|apply deduped_empty].
  intros st x. apply columnStep_deduped.
Qed.

(** C3 fails once the columns of the settings dialog are merged: the merge
    compares labels, not keys.  For a table whose column [Status] is headed
    [Overall Status] and a dialog that lists a column labelled [Status], the
    reconciled table has two columns of property key [Status]. *)
Theorem dialog_merge_duplicates_property_key :
  (fun t => colPropertyKey <$> columns t) <$> tables (reconcile statusScan)
    = [["Status"; "Status"]]
  /\ (forall t, t ∈ tables (reconcile statusScan) ->
        ~ NoDup (colPropertyKey <$> columns t))
  /\ NoDup (propertyKey <$> filters (reconcile statusScan))
  /\ (forall t, t ∈ extractTables (controls statusScan) ->
        NoDup (colPropertyKey <$> columns t)).
Proof.
  split; [by vm_compute|split; [|split]].
  - intros t Ht. vm_compute in Ht.
    apply list_elem_of_singleton in Ht as ->. simpl.
    intros Hnd. apply NoDup_cons in Hnd as [Hnotin _].
    apply Hnotin, list_elem_of_here.
  - apply extractFilters_keys_unique.
  - apply extractTables_keys_unique.
Qed.

End ReconcilerFacts.

(** ** The page *)

Module DomFacts.
Import Js Dom.

(** Induction on a node, with the property known of the children. *)
Section node_induction.
Variable P : node -> Prop.
Hypothesis Htext : forall d, P (Text d).
Hypothesis Helem : forall e ch, Forall P ch -> P (Elem e ch).

Fixpoint node_induction (n : node) : P n :=
  match n with
  | Text d => Htext d
  | Elem e ch =>
      Helem e ch
        ((fix children (l : list node) : Forall P l :=
            match l with
            | [] => Forall_nil_2 P
            | c :: r => Forall_cons_2 P c r (node_induction c) (children r)
            end) ch)
  end.
End node_induction.

Lemma blank_app a b : blank (a +:+ b) <-> blank a /\ blank b.
Proof.
  unfold blank. induction a as [|c a IH]; simpl; [tauto|].
  rewrite !andb_true_iff, IH. tauto.
Qed.

Lemma trimStart_blank s : blank s -> Js.trimStart s = "".
Proof.
  unfold blank. induction s as [|c s IH]; simpl; [done|].
  intros [Hc Hs]%andb_true_iff. rewrite Hc. by apply IH.
Qed.

Lemma trimEnd_empty s : Js.trimEnd s = "" -> blank s.
Proof.
  unfold blank. induction s as [|c s IH]; simpl; [done|].
  destruct (Js.trimEnd s) eqn:Hs; [|done].
  destruct (Js.is_ws c); [|done]. intros _. by rewrite IH.
Qed.

Lemma trimStart_empty s : Js.trimStart s = "" -> blank s.
Proof.
  unfold blank. induction s as [|c s IH]; simpl; [done|].
  destruct (Js.is_ws c); [|done]. intros H. by rewrite IH.
Qed.

(** The text that starts the trimmed string is not white space, so the
    trimmed end of it is empty only when it is empty itself. *)
Lemma trimStart_head s :
  Js.trimStart s = "" \/ exists c r, Js.trimStart s = String c r /\ Js.is_ws c = false.
Proof.
  induction s as [|c s IH]; simpl; [by left|].
  destruct (Js.is_ws c) eqn:Hc; [done|]. right. by exists c, s.
Qed.

Lemma trim_empty_iff s : Js.trim s = "" <-> blank s.
Proof.
  unfold Js.trim. split.
  - intros H. apply trimStart_empty.
    destruct (trimStart_head s) as [Hs|(c & r & Hs & Hc)]; [done|].
    rewrite Hs in H. apply trimEnd_empty in H. unfold blank in H. simpl in H.
    by rewrite Hc in H.
  - intros H. by rewrite trimStart_blank.
Qed.

Lemma join_blank xs : Forall blank xs -> blank (Js.join " " xs).
Proof.
  induction 1 as [|x xs Hx Hxs IH]; [done|].
  destruct xs as [|y ys]; [done|].
  change (blank (x +:+ " " +:+ Js.join " " (y :: ys))).
  apply blank_app. split; [done|]. by apply blank_app.
Qed.

(** When the text of a node is blank, so is the text of every element in
    it. *)
Lemma blank_under n :
  forall anc, blank (textContent n) -> Forall (fun l => blank (text l)) (under anc n).
Proof.
  induction n as [d|e ch IH] using node_induction; intros anc Hn; simpl.
  - constructor.
  - constructor; [done|].
    simpl in Hn. revert Hn. generalize (e :: anc) as anc'.
    induction IH as [|c r Hc _ IHr]; intros anc' Hn; simpl; [constructor|].
    simpl in Hn. apply blank_app in Hn as [Hc' Hr].
    apply Forall_app. split; [by apply Hc|by apply IHr].
Qed.

Lemma blank_descendants l : blank (text l) -> Forall (fun d => blank (text d)) (descendants l).
Proof.
  intros H.
  pose proof (blank_under (Elem (self l) (kids l)) (ancestors l) H) as Hall.
  simpl in Hall. by apply Forall_cons in Hall as [_ Hall].
Qed.

End DomFacts.

(** ** Row extraction *)

Module RowsFacts.
Import Dom Rows DomFacts.

(** The fallback of [cellText] never yields a value: the text content of
    a cell holds the text of the elements nested in it, so when it is blank
    the texts of the nested spans are blank as well.  The value of a cell is
    its trimmed text content in every case. *)
Lemma cellText_is_trimmed_textContent td : cellText td = Js.trim (text td).
Proof.
  unfold cellText. destruct (Js.trim (text td)) eqn:Htrim; [|done].
  apply trim_empty_iff, join_blank, Forall_fmap.
  apply trim_empty_iff, blank_descendants in Htrim.
  unfold querySelectorAll. rewrite Forall_forall in Htrim |- *.
  intros l Hl. apply list_elem_of_In, filter_In in Hl as [Hl _].
  by apply Htrim, list_elem_of_In.
Qed.

(** C6 fails on the composite cell: the texts of the two spans are read
    through the text content of the cell, which joins them without a space;
    the fallback that would join them with a space is not reached.  The
    three rows of the report carry the value "100USD". *)
Theorem composite_cell_joined_without_space :
  Js.trim (Js.join " " (text <$> querySelectorAll spanSel currencyLoc)) = "100 USD"
  /\ cellText currencyLoc = "100USD"
  /\ rows <$> getTableRows reportPage
     = [[[("Price", "100USD")]; [("Price", "100USD")]; [("Price", "100USD")]]].
Proof. split; [|split]; by vm_compute. Qed.

End RowsFacts.

(** ** Control scanner *)

Module ScannerFacts.
Import Scanner.

Lemma visit_controlOf includeShell acc e :
  visit includeShell acc e = acc ++ option_list (controlOf includeShell e).
Proof.
  unfold visit, controlOf.
  destruct (extractControl includeShell e) as [[c|]|]; simpl;
    by rewrite ?app_nil_r.
Qed.

Lemma scan_from includeShell entries acc :
  foldl (visit includeShell) acc entries
  = acc ++ omap (controlOf includeShell) entries.
Proof.
  revert acc. induction entries as [|e entries IH]; intros acc; simpl.
  - by rewrite app_nil_r.
  - rewrite IH, visit_controlOf.
    destruct (controlOf includeShell e); simpl; by rewrite <- ?app_assoc, ?app_nil_r.
Qed.




(** The scan of the registry with one faulty entry: ready, with the two
    other controls. *)
Lemma scan_mixedRegistry :
  ready (extractUi5Controls false (Some mixedRegistry)) = true
  /\ id <$> controls (extractUi5Controls false (Some mixedRegistry))
     = [Some "App--go"; Some "App--list"]
  /\ faulty false (entry "App--broken" "sap.m.Input" Raise).
Proof. split; [|split]; reflexivity. Qed.

(** Without the framework the scan is not ready and lists nothing. *)
Lemma scan_not_ready includeShell :
  extractUi5Controls includeShell None = {| ready := false; controls := [] |}.
Proof. reflexivity. Qed.

End ScannerFacts.

(** ** Interaction executor *)

Module ExecutorFacts.
Import Dom Executor.

(** [executeTableAction] looks at the dialog first: when the first open
    dialog has a form-like region and a footer the outcome is
    [popup_dialog], whatever else the page shows. *)
Lemma executeTableAction_dialog_first doc :
  dialogWithFormAndFooter doc = true ->
  scenarioOf (executeTableAction doc) = popup_dialog.
Proof. intros H. unfold executeTableAction, detectScenario. by rewrite H. Qed.

(** [executeAction] looks at the messages first: one collected message
    makes the outcome [error_messages], whatever dialog is open. *)
Lemma executeAction_messages_first doc :
  popoverMessages itemTextFallbackSel doc ++ messageBoxMessages doc <> [] ->
  scenarioOf (executeAction doc) = error_messages.
Proof.
  intros H. unfold executeAction.
  by destruct (popoverMessages itemTextFallbackSel doc ++ messageBoxMessages doc).
Qed.

Lemma executeAction_dialog_without_messages doc :
  popoverMessages itemTextFallbackSel doc ++ messageBoxMessages doc = [] ->
  dialogWithFormAndFooter doc = true ->
  scenarioOf (executeAction doc) = popup_dialog.
Proof. intros Hm Hd. unfold executeAction. by rewrite Hm, Hd. Qed.

(** C1 fails for [executeAction]: on a page with an open dialog that has a
    form and a footer, and a message popover with one error item, it answers
    [error_messages] with that message; [executeTableAction] answers
    [popup_dialog] on the same page. *)
Theorem executeAction_reports_messages_despite_dialog :
  hasFormDialog dialogAndPopover = true
  /\ hasPopover dialogAndPopover = true
  /\ executeAction dialogAndPopover
     = ErrorMessages [{| msgSeverity := Error; msgText := "Agency ID is mandatory" |}]
  /\ scenarioOf (executeAction dialogAndPopover) = error_messages
  /\ scenarioOf (executeTableAction dialogAndPopover) = popup_dialog.
Proof. repeat split; by vm_compute. Qed.

(** [executeTableAction] examines the first open dialog of the document
    only: when a message box stands before the form dialog, the outcome is
    [error_messages]. *)
Lemma executeTableAction_first_open_dialog_only :
  hasFormDialog messageBoxBeforeDialog = true
  /\ dialogWithFormAndFooter messageBoxBeforeDialog = false
  /\ scenarioOf (executeTableAction messageBoxBeforeDialog) = error_messages.
Proof. repeat split; by vm_compute. Qed.

End ExecutorFacts.

(** ** Filter resolution *)

Module ResolverFacts.
Import Js Reconciler Resolver JsFacts.

(** The two equality tests of the callback add nothing to its two
    containment tests. *)
Lemma matchesTerm_contains query f :
  matchesTerm (normalize (Some query)) f = contains query f.
Proof.
  unfold matchesTerm, contains.
  destruct (String.eqb_spec (normalize (Some (propertyKey f))) (normalize (Some query)))
    as [->|_]; simpl.
  { by rewrite includes_refl. }
  destruct (String.eqb_spec (normalize (label f)) (normalize (Some query)))
    as [->|_]; simpl; [|done].
  rewrite includes_refl. symmetry. apply orb_true_r.
Qed.

Lemma find_first {A : Type} (p : A -> bool) (l : list A) :
  match List.find p l with
  | Some x =>
      exists before after,
        l = before ++ x :: after /\ p x = true /\ forall y, y ∈ before -> p y = false
  | None => forall y, y ∈ l -> p y = false
  end.
Proof.
  induction l as [|a l IH]; simpl.
  - intros y Hy. inversion Hy.
  - destruct (p a) eqn:Ha.
    + exists [], l. repeat split; [done|]. intros y Hy. inversion Hy.
    + destruct (List.find p l) as [x|].
      * destruct IH as (before & after & -> & Hx & Hbefore).
        exists (a :: before), after. repeat split; [done|].
        intros y [->|Hy]%elem_of_cons; [done|by apply Hbefore].
      * intros y [->|Hy]%elem_of_cons; [done|by apply IH].
Qed.

Lemma find_none {A : Type} (p : A -> bool) (l : list A) :
  (forall y, y ∈ l -> p y = false) -> List.find p l = None.
Proof.
  induction l as [|a l IH]; simpl; [done|]. intros H.
  rewrite (H a); [|by left]. apply IH. intros y Hy. apply H. by right.
Qed.

(** The lookup of [setFilter] is one pass over the persisted filters, in
    their order: it returns the first descriptor whose normalized property
    key or normalized label contains the normalized query (an equal one
    contains it), and none when no descriptor does. *)
Lemma findFilter_first_containing (filters : list FilterDescriptor) (query : string) :
  match findFilter filters query with
  | Some f =>
      exists before after,
        filters = before ++ f :: after
        /\ contains query f = true
        /\ forall g, g ∈ before -> contains query g = false
  | None => forall g, g ∈ filters -> contains query g = false
  end.
Proof.
  unfold findFilter.
  pose proof (find_first (matchesTerm (normalize (Some query))) filters) as H.
  destruct (List.find _ filters) as [f|].
  - destruct H as (before & after & -> & Hf & Hbefore).
    exists before, after. repeat split; [by rewrite <- matchesTerm_contains|].
    intros g Hg. rewrite <- matchesTerm_contains. by apply Hbefore.
  - intros g Hg. rewrite <- matchesTerm_contains. by apply H.
Qed.

(** C2 fails on [setFilter]: its lookup is not staged.  The query [Travel]
    is the property key of the second persisted filter, and the resolution
    the specification describes returns that filter; [setFilter] resolves
    the query to the first filter, whose key [TravelID] only contains it,
    and fills the input of that filter. *)
Theorem setFilter_substring_before_exact_key :
  propertyKey <$> resolveFilter travelFilters "Travel" = Some "Travel"
  /\ propertyKey <$> findFilter travelFilters "Travel" = Some "TravelID"
  /\ findFilter travelFilters "Travel" <> resolveFilter travelFilters "Travel"
  /\ snd (setFilter travelFilters "Travel" "42")
     = Reply "Filter Identifier (TravelID) set to 42".
Proof. repeat split; by vm_compute. Qed.

(** The normalization of the server removes the letter s and keeps white
    space: a query written with a space does not reach the key written
    without it, and a query made of the letter s reaches every filter. *)
Lemma normalize_as_emitted :
  normalize (Some "Overall_Status-X") = "overalltatux"
  /\ normalize (Some "Travel ID") = "travel id"
  /\ findFilter travelFilters "Travel ID" = None
  /\ propertyKey <$> findFilter travelFilters "s" = Some "TravelID".
Proof. repeat split; by vm_compute. Qed.

(** A query that is the property key or the label of a descriptor is
    contained in it. *)
Lemma contains_exact query f :
  propertyKey f = query \/ label f = Some query -> contains query f = true.
Proof.
  unfold contains. intros [ <- | -> ].
  - by rewrite includes_refl.
  - rewrite includes_refl. apply orb_true_r.
Qed.

(** *** The answer when nothing is found *)









End ResolverFacts.

(** * Further properties of the code *)

(** ** Strings: prefixes, pieces of a split, trimming *)

Module JsLaws.
Import Js JsFacts.

Lemma startsWith_cons c s p :
  startsWith (String c s) p =
    match p with
    | EmptyString => true
    | String d p' => Ascii.eqb c d && startsWith s p'
    end.
Proof. by destruct p. Qed.

(** A prefix test looks at no more characters than the prefix has. *)
Lemma startsWith_app_enough s r p :
  String.length p <= String.length s -> startsWith (s +:+ r) p = startsWith s p.
Proof.
  revert p. induction s as [|c s IH]; intros [|d p] Hlen; simpl in *; try done; try lia.
  - apply startsWith_nil.
  - rewrite IH; [done|lia].
Qed.

(** A text appended after [x] does not complete a prefix when its first
    character does not occur in the prefix. *)
Lemma startsWith_app_foreign h t p x :
  all (fun c => negb (Ascii.eqb c h)) p = true ->
  startsWith (x +:+ String h t) p = startsWith x p.
Proof.
  revert p. induction x as [|c x IH]; intros [|d p]; simpl; try done.
  - intros [Hd _]%andb_true_iff. apply negb_true_iff in Hd.
    by rewrite Ascii.eqb_sym, Hd.
  - intros [_ Hp]%andb_true_iff. by rewrite IH.
Qed.

Lemma includes_cons_false c s sub :
  includes (String c s) sub = false ->
  startsWith (String c s) sub = false /\ includes s sub = false.
Proof. simpl. by intros [? ?]%orb_false_iff. Qed.

Lemma includes_app_foreign h t p x :
  all (fun c => negb (Ascii.eqb c h)) p = true ->
  includes x p = false ->
  includes (String h t) p = false ->
  includes (x +:+ String h t) p = false.
Proof.
  intros Hp Hx Ht. induction x as [|c x IH]; [done|].
  apply includes_cons_false in Hx as [Hhead Hx].
  change (startsWith (String c x +:+ String h t) p || includes (x +:+ String h t) p = false).
  rewrite (startsWith_app_foreign h t p (String c x) Hp), Hhead. simpl. by apply IH.
Qed.

(** *** Splitting *)

Lemma split_from_skip sep x r :
  split_from sep (String.length x) (x +:+ r) = split_from sep 0 r.
Proof. induction x as [|c x IH]; simpl; [done|]. apply IH. Qed.

(** Without an occurrence of the separator there is one piece. *)
Lemma split_from_absent sep s :
  includes s sep = false -> split_from sep 0 s = (s, []).
Proof.
  induction s as [|c s IH]; [done|]. intros [Hhead Hs]%includes_cons_false.
  cbn [split_from]. rewrite Hhead, (IH Hs). done.
Qed.

Lemma split_absent sep s : includes s sep = false -> split sep s = [s].
Proof. intros H. unfold split. by rewrite split_from_absent. Qed.

(** When the separator occurs in [base +:+ sep] at its end only, a text
    that continues it is split there first. *)
Lemma split_from_app_sep c0 sep' base rest :
  split_from (String c0 sep') 0 (base +:+ String c0 sep') = (base, [EmptyString]) ->
  split_from (String c0 sep') 0 (base +:+ String c0 sep' +:+ rest)
  = (base, let '(p, ps) := split_from (String c0 sep') 0 rest in p :: ps).
Proof.
  set (sep := String c0 sep'). induction base as [|a base IH]; intros Hbase.
  - change (split_from sep 0 (sep +:+ rest) = (EmptyString, let '(p, ps) := split_from sep 0 rest in p :: ps)).
    unfold sep at 2. cbn [String.append split_from].
    change (String c0 (sep' +:+ rest)) with (sep +:+ rest).
    rewrite startsWith_app.
    assert (String.length sep - 1 = String.length sep') as ->
      by (unfold sep; simpl; lia).
    rewrite split_from_skip. by destruct (split_from sep 0 rest).
  - cbn [String.append split_from] in Hbase |- *.
    assert (startsWith (String a (base +:+ sep +:+ rest)) sep
            = startsWith (String a (base +:+ sep)) sep) as ->.
    { change (startsWith (String a base +:+ sep +:+ rest) sep
              = startsWith (String a base +:+ sep) sep).
      rewrite <- (app_assoc (String a base) sep rest).
      apply startsWith_app_enough. rewrite length_app. simpl. lia. }
    destruct (startsWith (String a (base +:+ sep)) sep) eqn:Hstart.
    + destruct (split_from sep (String.length sep - 1) (base +:+ sep)); done.
    + destruct (split_from sep 0 (base +:+ sep)) as [p ps] eqn:Hsplit.
      injection Hbase as -> ->. by rewrite IH.
Qed.

Lemma split_app_sep c0 sep' base rest :
  split (String c0 sep') (base +:+ String c0 sep') = [base; EmptyString] ->
  split (String c0 sep') (base +:+ String c0 sep' +:+ rest)
  = base :: split (String c0 sep') rest.
Proof.
  unfold split. intros H.
  destruct (split_from (String c0 sep') 0 (base +:+ String c0 sep')) as [p ps] eqn:Hs.
  injection H as -> ->. by rewrite (split_from_app_sep c0 sep' base rest Hs).
Qed.

(** The piece read from the start of a text is a prefix of it. *)
Lemma split_from_prefix sep s p ps :
  split_from sep 0 s = (p, ps) -> exists r, s = p +:+ r.
Proof.
  revert p ps. induction s as [|c s IH]; intros p ps.
  - simpl. intros [= <- <-]. by exists EmptyString.
  - cbn [split_from]. destruct (startsWith (String c s) sep).
    + destruct (split_from sep (String.length sep - 1) s). cbv beta iota zeta. intros [= <- <-]. by exists (String c s).
    + destruct (split_from sep 0 s) as [p' ps'] eqn:Hs. cbv beta iota zeta. intros [= <- <-].
      destruct (IH p' ps' eq_refl) as [r ->]. by exists r.
Qed.

Lemma split_from_whole sep s p : split_from sep 0 s = (p, []) -> p = s.
Proof.
  revert p. induction s as [|c s IH]; intros p.
  - simpl. by intros [= <-].
  - cbn [split_from]. destruct (startsWith (String c s) sep).
    + by destruct (split_from sep (String.length sep - 1) s).
    + destruct (split_from sep 0 s) as [p' ps'] eqn:Hs. cbv beta iota zeta. intros [= <- ->].
      by rewrite (IH p' eq_refl).
Qed.

Lemma endsWith_refl s : endsWith s s = true.
Proof. destruct s; simpl; [done|]. by rewrite Ascii.eqb_refl, String.eqb_refl. Qed.

Lemma endsWith_cons c s suf : endsWith s suf = true -> endsWith (String c s) suf = true.
Proof. intros H. cbn [endsWith]. rewrite H. apply orb_true_r. Qed.

(** The last piece of a split is a suffix of the text. *)
Lemma split_from_last_suffix sep s :
  forall skip p ps,
    split_from sep skip s = (p, ps) ->
    endsWith s (default EmptyString (last (p :: ps))) = true.
Proof.
  induction s as [|c s IH]; intros skip p ps.
  - destruct skip; simpl; by intros [= <- <-].
  - cbn [split_from]. destruct skip as [|k].
    + destruct (startsWith (String c s) sep).
      * destruct (split_from sep (String.length sep - 1) s) as [p' ps'] eqn:Hs. cbv beta iota zeta. intros [= <- <-].
        apply endsWith_cons. rewrite last_cons_cons. by apply (IH _ _ _ Hs).
      * destruct (split_from sep 0 s) as [p' ps'] eqn:Hs. cbv beta iota zeta. intros [= <- <-].
        destruct ps' as [|q ps'].
        -- rewrite (split_from_whole _ _ _ Hs). apply endsWith_refl.
        -- rewrite last_cons_cons. apply endsWith_cons.
           specialize (IH _ _ _ Hs). by rewrite last_cons_cons in IH.
    + intros Hs. apply endsWith_cons. by apply (IH _ _ _ Hs).
Qed.

(** No piece of a split holds the separator. *)
Lemma split_from_pieces_free c0 sep' s :
  forall skip p ps,
    split_from (String c0 sep') skip s = (p, ps) ->
    Forall (fun q => includes q (String c0 sep') = false) (p :: ps).
Proof.
  set (sep := String c0 sep').
  induction s as [|c s IH]; intros skip p ps.
  - destruct skip; simpl; intros [= <- <-]; by repeat constructor.
  - cbn [split_from]. destruct skip as [|k].
    + destruct (startsWith (String c s) sep) eqn:Hstart.
      * destruct (split_from sep (String.length sep - 1) s) as [p' ps'] eqn:Hs. cbv beta iota zeta. intros [= <- <-].
        constructor; [done|]. by apply (IH _ _ _ Hs).
      * destruct (split_from sep 0 s) as [p' ps'] eqn:Hs. cbv beta iota zeta. intros [= <- <-].
        pose proof (IH _ _ _ Hs) as Hall. apply Forall_cons in Hall as [Hp' Hps'].
        constructor; [|done].
        change (startsWith (String c p') sep || includes p' sep = false).
        rewrite Hp', orb_false_r.
        destruct (split_from_prefix _ _ _ _ Hs) as [r ->].
        destruct (startsWith (String c p') sep) eqn:Hp; [|done].
        change (String c (p' +:+ r)) with (String c p' +:+ r) in Hstart.
        by rewrite (startsWith_app_l _ r _ Hp) in Hstart.
    + intros Hs. by apply (IH _ _ _ Hs).
Qed.

(** *** Suffix removal *)

Lemma dropSuffix_app suf s : dropSuffix suf (s +:+ suf) = s.
Proof.
  induction s as [|c s IH].
  - destruct suf; simpl; [done|]. by rewrite Ascii.eqb_refl, String.eqb_refl.
  - cbn [String.append dropSuffix].
    destruct (String.eqb_spec (String c (s +:+ suf)) suf) as [Heq|_].
    + apply (f_equal String.length) in Heq. cbn [String.length] in Heq.
      rewrite length_app in Heq. lia.
    + assert (endsWith (s +:+ suf) suf = true) as ->; [|by rewrite IH].
      clear IH. induction s as [|d s IHs]; [apply endsWith_refl|].
      by apply endsWith_cons.
Qed.

(** *** Trimming *)

Lemma trimEnd_idem s : trimEnd (trimEnd s) = trimEnd s.
Proof.
  induction s as [|c s IH]; [done|]. cbn [trimEnd].
  destruct (trimEnd s) as [|d r] eqn:Hs.
  - destruct (is_ws c) eqn:Hc; [done|]. cbn [trimEnd]. by rewrite Hc.
  - cbn [trimEnd]. cbn [trimEnd] in IH.
    destruct (trimEnd r) as [|e r'] eqn:Hr.
    + destruct (is_ws d) eqn:Hd; [done|]. by rewrite IH.
    + by rewrite IH.
Qed.

Lemma trimEnd_head c s :
  is_ws c = false -> exists r, trimEnd (String c s) = String c r.
Proof.
  intros Hc. cbn [trimEnd]. destruct (trimEnd s); [|by eexists].
  rewrite Hc. by eexists.
Qed.

Lemma trimStart_fixed c s : is_ws c = false -> trimStart (String c s) = String c s.
Proof. intros Hc. simpl. by rewrite Hc. Qed.

Lemma trimStart_result s :
  trimStart s = EmptyString \/ exists c r, trimStart s = String c r /\ is_ws c = false.
Proof.
  induction s as [|c s IH]; simpl; [by left|].
  destruct (is_ws c) eqn:Hc; [done|]. right. by exists c, s.
Qed.

(** A trimmed text is not changed by trimming. *)
Lemma trim_idem s : trim (trim s) = trim s.
Proof.
  unfold trim. destruct (trimStart_result s) as [->|(c & r & -> & Hc)]; [done|].
  destruct (trimEnd_head c r Hc) as [r' Hr]. rewrite Hr.
  rewrite (trimStart_fixed c r' Hc), <- Hr. apply trimEnd_idem.
Qed.

End JsLaws.

(** ** Identifier codec: what an escaped id still tells *)

Module CodecLaws.
Import Js Codec.

(** The result of [cssEscape] never starts with a character of the class:
    such a character gets a backslash before it. *)
Lemma cssEscape_head id c r : cssEscape id = String c r -> special c = false.
Proof.
  destruct id as [|d s]; [done|]. simpl.
  destruct (special d) eqn:Hd; intros [= <- _]; [done|exact Hd].
Qed.

(** X1: [cssEscape] loses nothing: two ids with the same escaped form are
    the same id, so distinct ids never get the same selector. *)
Theorem cssEscape_injective (a b : string) : cssEscape a = cssEscape b -> a = b.
Proof.
  revert b. induction a as [|c a IH]; intros [|d b].
  - done.
  - simpl. by destruct (special d).
  - simpl. by destruct (special c).
  - simpl. destruct (special c) eqn:Hc, (special d) eqn:Hd.
    + intros [= -> Heq]. by rewrite (IH b Heq).
    + intros [= <- Heq]. symmetry in Heq. apply cssEscape_head in Heq. congruence.
    + intros [= -> Heq]. apply cssEscape_head in Heq. congruence.
    + intros [= -> Heq]. by rewrite (IH b Heq).
Qed.

Lemma cssEscape_injective_witness :
  "fe::table::Items" = "fe::table::Items".
Proof. apply (cssEscape_injective "fe::table::Items" "fe::table::Items"). reflexivity. Defined.

(** X2: in the result of [cssEscape] no character of the class stands
    bare: it is never the first character, and wherever one stands the
    character before it is a backslash. *)
Theorem cssEscape_leaves_none_bare (id : string) :
  (forall c, String.get 0 (cssEscape id) = Some c -> special c = false)
  /\ (forall i c,
        String.get (S i) (cssEscape id) = Some c -> special c = true ->
        String.get i (cssEscape id) = Some backslash).
Proof.
  split.
  - intros c Hc. destruct (cssEscape id) as [|d r] eqn:Hid; [done|].
    simpl in Hc. injection Hc as ->. by apply (cssEscape_head id c r).
  - induction id as [|d s IH]; intros i c; [done|].
    simpl. destruct (special d) eqn:Hd.
    + destruct i as [|[|i]]; simpl.
      * done.
      * intros Hget Hc. destruct (cssEscape s) as [|e r] eqn:Hs; [done|].
        simpl in Hget. injection Hget as ->.
        pose proof (cssEscape_head _ _ _ Hs). congruence.
      * intros Hget Hc. by apply (IH _ c).
    + destruct i as [|i]; simpl.
      * intros Hget Hc. destruct (cssEscape s) as [|e r] eqn:Hs; [done|].
        simpl in Hget. injection Hget as ->.
        pose proof (cssEscape_head _ _ _ Hs). congruence.
      * intros Hget Hc. by apply (IH _ c).
Qed.

Lemma cssEscape_leaves_none_bare_witness :
  String.get 2 (cssEscape "fe::F") = Some backslash.
Proof.
  destruct (cssEscape_leaves_none_bare "fe::F") as [_ H].
  apply (H 2 ":"%char); reflexivity.
Defined.

End CodecLaws.

(** ** Row extraction: the row objects *)

Module RowsLaws.
Import Js Dom Rows.

Lemma place_keys i k v obj : (fst <$> place i k v obj) ≡ₚ k :: (fst <$> obj).
Proof.
  induction obj as [|[k' v'] obj IH]; csimpl; [done|].
  destruct (arrayIndex k') as [j|]; [|done].
  destruct (j <? i)%N; [|done]. csimpl. rewrite IH. apply Permutation_swap.
Qed.

Lemma update_keys k v (obj : rowObj) :
  (fst <$> map (fun kv => if String.eqb (fst kv) k then (k, v) else kv) obj)
  = (fst <$> obj).
Proof.
  induction obj as [|[k' v'] obj IH]; csimpl; [done|]. rewrite IH.
  by destruct (String.eqb_spec k' k) as [->|_].
Qed.

Lemma has_key k (obj : rowObj) :
  existsb (fun kv => String.eqb (fst kv) k) obj = false -> k ∉ (fst <$> obj).
Proof.
  induction obj as [|[k' v'] obj IH]; csimpl; [intros _; apply not_elem_of_nil|].
  intros [Hk Hrest]%orb_false_elim. apply String.eqb_neq in Hk.
  intros [?|?]%elem_of_cons; [congruence|by apply IH].
Qed.

(** The names of an object after an assignment: those it had, and the
    name assigned when it is new and not [__proto__]. *)
Lemma assign_keys k v obj :
  (fst <$> assign k v obj) = (fst <$> obj)
  \/ ((k ∉ (fst <$> obj)) /\ (fst <$> assign k v obj) ≡ₚ k :: (fst <$> obj)).
Proof.
  unfold assign. destruct (String.eqb k "__proto__"); [by left|].
  destruct (existsb _ obj) eqn:Hhas; [left; apply update_keys|].
  right. split; [by apply has_key|].
  destruct (arrayIndex k) as [i|]; [apply place_keys|].
  rewrite fmap_app. csimpl. by rewrite Permutation_app_comm.
Qed.

Lemma assign_NoDup k v obj : NoDup (fst <$> obj) -> NoDup (fst <$> assign k v obj).
Proof.
  intros Hnd. destruct (assign_keys k v obj) as [->|[Hnin ->]]; [done|].
  by apply NoDup_cons.
Qed.

Lemma assign_nonempty k v obj :
  k <> EmptyString -> Forall (fun key => key <> EmptyString) (fst <$> obj) ->
  Forall (fun key => key <> EmptyString) (fst <$> assign k v obj).
Proof.
  intros Hk Hall. destruct (assign_keys k v obj) as [->|[_ ->]]; [done|].
  by constructor.
Qed.

Lemma nameOf_truthy v : truthyFound v = true -> nameOf v <> EmptyString.
Proof. by destruct v as [[|c s]|f|]. Qed.

Lemma readCell_keys cmap obj td :
  NoDup (fst <$> obj) /\ Forall (fun key => key <> EmptyString) (fst <$> obj) ->
  NoDup (fst <$> readCell cmap obj td)
  /\ Forall (fun key => key <> EmptyString) (fst <$> readCell cmap obj td).
Proof.
  intros [Hnd Hne]. unfold readCell.
  destruct (match get cmap _ with Some v => _ | None => _ end) as [v|]; [|done].
  destruct (truthyFound v) eqn:Hv; [|done].
  split; [by apply assign_NoDup|apply assign_nonempty; [by apply nameOf_truthy|done]].
Qed.

(** A row object has no property twice and none with an empty name: a
    cell whose column key was already read replaces the earlier value, a
    cell without a column key is left out. *)
Lemma readRow_keys (cmap : gmap string string) (tr : loc) :
  NoDup (fst <$> readRow cmap tr)
  /\ Forall (fun key => key <> EmptyString) (fst <$> readRow cmap tr).
Proof.
  unfold readRow. generalize (querySelectorAll dataCellSel tr) as tds.
  assert (Hinit : NoDup (fst <$> ([] : rowObj))
                  /\ Forall (fun key => key <> EmptyString) (fst <$> ([] : rowObj))).
  { split; constructor. }
  revert Hinit. generalize ([] : rowObj) as obj.
  intros obj Hobj tds. revert obj Hobj.
  induction tds as [|td tds IH]; intros obj Hobj; simpl; [done|].
  by apply IH, readCell_keys.
Qed.

Lemma columnMap_snoc hs h :
  columnMap (hs ++ [h])
  = if String.eqb (eid (self h)) "__proto__" then columnMap hs
    else <[eid (self h) := columnKey (eid (self h))]> (columnMap hs).
Proof. unfold columnMap. by rewrite foldl_app. Qed.

(** The own properties of the column map: the ids of the header cells
    other than [__proto__], each with the key derived from it. *)
Lemma columnMap_own (headerCells : list loc) (name : string) :
  columnMap headerCells !! name
  = (if bool_decide (name ∈ (fun th => eid (self th)) <$> headerCells)
        && negb (String.eqb name "__proto__")
     then Some (columnKey name) else None).
Proof.
  induction headerCells as [|h hs IH] using rev_ind; [done|].
  rewrite columnMap_snoc, fmap_app. cbn [fmap list_fmap].
  destruct (String.eqb_spec (eid (self h)) "__proto__") as [Hp|Hp].
  - rewrite IH. destruct (String.eqb name "__proto__") eqn:Hn.
    + by rewrite !andb_false_r.
    + apply String.eqb_neq in Hn. rewrite !andb_true_r.
      case_bool_decide as Hi; case_bool_decide as Hi'; try done; exfalso.
      * apply Hi', elem_of_app. by left.
      * apply elem_of_app in Hi' as [?|?%list_elem_of_singleton]; [done|congruence].
  - destruct (decide (eid (self h) = name)) as [<-|Hne].
    + rewrite lookup_insert_eq. rewrite bool_decide_eq_true_2.
      * by destruct (String.eqb_spec (eid (self h)) "__proto__").
      * apply elem_of_app. right. apply list_elem_of_here.
    + rewrite lookup_insert_ne, IH; [|done].
      case_bool_decide as Hi; case_bool_decide as Hi'; try done; exfalso.
      * apply Hi', elem_of_app. by left.
      * apply elem_of_app in Hi' as [?|?%list_elem_of_singleton]; [done|by apply Hne].
Qed.

(** X3: what the lookup [columnMap[name]] of [getTableRows] finds.  For
    [__proto__] it is the prototype of the object; for the id of a header
    cell it is the key derived from that id; for any other name it is the
    built-in function that [Object.prototype] has under this name, and
    nothing when it has none.  The key derived from an id is empty only
    when the id is. *)
Theorem columnMap_lookup (headerCells : list loc) (name : string) :
  get (columnMap headerCells) name
  = (if String.eqb name "__proto__" then Some Prototype
     else if bool_decide (name ∈ (fun th => eid (self th)) <$> headerCells)
     then Some (Str (columnKey name))
     else Builtin <$> builtin name)
  /\ (columnKey name = EmptyString <-> name = EmptyString).
Proof.
  split.
  - unfold get. rewrite columnMap_own.
    destruct (String.eqb name "__proto__"); [done|]. rewrite andb_true_r.
    by case_bool_decide.
  - split.
    + unfold columnKey. by destruct (dropSuffix _ _).
    + by intros ->.
Qed.

End RowsLaws.

(** ** Readiness and rows *)

Module ReadinessLaws.
Import Dom Rows Readiness.

(** X4: when the predicate [pressGo] waits for holds of the page,
    [getTableRows] reads at least one table, and the first table it reads
    has at least one row. *)
Theorem rowsRendered_rows_read (doc : document) :
  rowsRendered doc = true ->
  exists t rest,
    getTableRows doc = t :: rest
    /\ 0 < rowCount t
    /\ length (rows t) = rowCount t.
Proof.
  unfold rowsRendered, getTableRows, docQuerySelector.
  destruct (docQuerySelectorAll tableSel doc) as [|tbl tbls]; [done|].
  simpl. intros Hrows. eexists _, _. split; [done|]. simpl. split; [|done].
  destruct (querySelectorAll bodyRowSel tbl); [done|]. simpl. lia.
Qed.

Lemma rowsRendered_rows_read_witness :
  exists t rest,
    getTableRows reportPage = t :: rest
    /\ 0 < rowCount t
    /\ length (rows t) = rowCount t.
Proof. apply (rowsRendered_rows_read reportPage). reflexivity. Defined.

End ReadinessLaws.

(** ** Metadata reconciler: what the extraction keeps *)

Module ReconcilerLaws.
Import Js Codec Actions Reconciler Shapes ReconcilerFacts.

(** *** Filters *)

Lemma firstWins_later items result x :
  firstWins items result ->
  (forall k, keyOf x = Some k -> k <> EmptyString -> k ∈ propertyKey <$> result) ->
  firstWins (items ++ [x]) result.
Proof.
  intros [Hfirst Hall] Hx. split.
  - intros d Hd. destruct (Hfirst d Hd) as (Hne & before & it & after & -> & ? & ? & ?).
    split; [done|]. exists before, it, (after ++ [x]).
    by rewrite <- app_assoc.
  - intros it k [Hit| ->%list_elem_of_singleton]%elem_of_app; [by apply Hall|by apply Hx].
Qed.

Lemma dedup_run items :
  deduped propertyKey (foldl dedupStep (∅, []) items)
  /\ firstWins items (foldl dedupStep (∅, []) items).2.
Proof.
  induction items as [|x items [Hded Hfw]] using rev_ind.
  - split; [apply deduped_empty|]. split; [intros d Hd|intros it k Hit]; simpl in *.
    + by apply elem_of_nil in Hd.
    + by apply elem_of_nil in Hit.
  - rewrite foldl_app. simpl.
    destruct (foldl dedupStep (∅, []) items) as [seen result] eqn:Hrun.
    simpl in Hfw. unfold dedupStep.
    destruct (keyOf x) as [[|c k]|] eqn:Hkey.
    + split; [done|]. apply firstWins_later; [done|].
      intros k' Hk' Hne. rewrite Hkey in Hk'. by injection Hk' as <-.
    + case_bool_decide as Hin.
      * split; [done|]. apply firstWins_later; [done|].
        intros k' Hk' _. rewrite Hkey in Hk'. injection Hk' as <-. by apply Hded.
      * split.
        { by apply (deduped_push propertyKey seen result (descriptorOf (String c k) x)). }
        simpl. destruct Hfw as [Hfirst Hall]. split.
        -- intros d [Hd| ->%list_elem_of_singleton]%elem_of_app.
           ++ destruct (Hfirst d Hd) as (Hne & before & it & after & -> & ? & ? & ?).
              split; [done|]. exists before, it, (after ++ [x]).
              by rewrite <- app_assoc.
           ++ split; [done|]. exists items, x, []. repeat split; try done.
              intros j Hj Hjk. apply Hin, Hded. by apply (Hall j).
        -- intros it k' [Hit| ->%list_elem_of_singleton]%elem_of_app Hk Hne;
             rewrite fmap_app; apply elem_of_app.
           ++ left. by apply (Hall it).
           ++ right. rewrite Hkey in Hk. injection Hk as <-. by apply list_elem_of_singleton.
    + split; [done|]. apply firstWins_later; [done|].
      intros k' Hk'. by rewrite Hkey in Hk'.
Qed.

(** X5: the first discovered item wins.  Every filter descriptor of
    [extractFilters] has a non-empty property key and is built from the first
    collected item that has this key; every collected item with a key has its
    key among the descriptors; no key occurs twice. *)
Theorem extractFilters_first_item_wins (controls : list Control) :
  (forall d, d ∈ extractFilters controls ->
     propertyKey d <> EmptyString
     /\ exists before it after,
          collectItems controls = before ++ it :: after
          /\ keyOf it = Some (propertyKey d)
          /\ d = descriptorOf (propertyKey d) it
          /\ forall j, j ∈ before -> keyOf j <> Some (propertyKey d))
  /\ (forall it k,
        it ∈ collectItems controls -> keyOf it = Some k -> k <> EmptyString ->
        k ∈ propertyKey <$> extractFilters controls)
  /\ NoDup (propertyKey <$> extractFilters controls).
Proof.
  unfold extractFilters.
  destruct (dedup_run (collectItems controls)) as [[_ Hnd] [Hfirst Hall]].
  split; [exact Hfirst|split; [exact Hall|exact Hnd]].
Qed.

(** *** Tables: actions *)

Lemma candidate_id basePrefix c :
  isActionCandidate basePrefix c = true ->
  exists a s, id c = Some (String a s).
Proof.
  unfold isActionCandidate, idSat. destruct (id c) as [[|a s]|]; [|by eexists _, _|done].
  destruct basePrefix; simpl; discriminate.
Qed.

Lemma classify_known a s : classifyActionId (Some (String a s)) <> unknown.
Proof. unfold classifyActionId. by repeat case_match. Qed.

(** X6: no action of a table that [extractTables] builds is classified
    [unknown]; each is classified by its id and selected by its escaped id,
    and the custom actions of the table are exactly its actions that are not
    classified [standard]. *)
Theorem extractTables_actions_classified
    (controls : list Control) (t : TableDescriptor) (a : Action) :
  t ∈ extractTables controls -> a ∈ actions t ->
  actionKind a <> unknown
  /\ actionKind a = classifyActionId (Some (actionId a))
  /\ actionSelector a = "#" +:+ cssEscape (actionId a)
  /\ (a ∈ customActions t <-> actionKind a <> standard).
Proof.
  unfold extractTables. intros (root & -> & _)%list_elem_of_fmap. simpl.
  intros Ha. pose proof Ha as (c & -> & Hc)%list_elem_of_fmap.
  apply list_elem_of_In, filter_In in Hc as [Hc _].
  apply filter_In in Hc as [_ Hc].
  destruct (candidate_id _ _ Hc) as (x & s & Hid).
  assert (Hkind : actionKind (actionOf c) <> unknown).
  { unfold actionOf. simpl. rewrite Hid. apply classify_known. }
  repeat split; try done.
  - unfold actionOf. simpl. by rewrite Hid.
  - intros Hin. apply list_elem_of_In, filter_In in Hin as [_ Hcustom].
    unfold isCustom in Hcustom. by destruct (actionKind (actionOf c)).
  - intros Hns. apply list_elem_of_In, filter_In. split.
    + by apply list_elem_of_In.
    + unfold isCustom. by destruct (actionKind (actionOf c)).
Qed.

Lemma extractTables_actions_classified_witness :
  actionKind (actionOf Samples.approveButton) <> unknown
  /\ actionKind (actionOf Samples.approveButton)
     = classifyActionId (Some (actionId (actionOf Samples.approveButton)))
  /\ actionSelector (actionOf Samples.approveButton)
     = "#" +:+ cssEscape (actionId (actionOf Samples.approveButton))
  /\ (actionOf Samples.approveButton
        ∈ customActions (tableOf (controls Samples.listScan) Samples.tableRoot)
      <-> actionKind (actionOf Samples.approveButton) <> standard).
Proof.
  apply (extractTables_actions_classified (controls Samples.listScan)).
  - vm_compute. apply list_elem_of_here.
  - vm_compute. apply list_elem_of_further, list_elem_of_here.
Defined.

(** *** Tables: columns *)

Lemma splitFirst_free s : includes (splitFirst "-" s) "-" = false.
Proof.
  unfold splitFirst, split.
  destruct (split_from "-" 0 s) as [p ps] eqn:Hs. simpl.
  pose proof (JsLaws.split_from_pieces_free "-"%char EmptyString s 0 p ps Hs) as Hall.
  by apply Forall_cons in Hall as [Hp _].
Qed.

Lemma getText_truthy c l : getText c = Some l -> l <> EmptyString.
Proof.
  unfold getText, or_else.
  destruct (truthy (if truthy (text c) then text c else labelText c)) eqn:Ht; [|done].
  intros Heq. rewrite Heq in Ht. by destruct l.
Qed.

Lemma columnStep_scanned basePrefix colIdControls st c :
  Forall (scanned basePrefix) st.2 ->
  Forall (scanned basePrefix) (columnStep basePrefix colIdControls st c).2.
Proof.
  destruct st as [seen result]. simpl. intros Hall. unfold columnStep.
  destruct (splitSecond _ _) as [[|a r]|]; try done.
  destruct (splitFirst "-" (String a r)) as [|a' key] eqn:Hkey; [done|].
  case_bool_decide as Hin; [done|]. cbn [snd].
  apply Forall_app. split; [done|]. constructor; [|constructor].
  unfold scanned. cbn [colPropertyKey colLabel headerColumnId headerColumnCss].
  split_and!; try done.
  - rewrite <- Hkey. apply splitFirst_free.
  - destruct (getText _) as [l|] eqn:Hl; cbn [default]; [|done].
    by apply (getText_truthy _ _ Hl).
Qed.

Lemma tableColumns_scanned controls basePrefix :
  Forall (scanned basePrefix) (tableColumns controls basePrefix).
Proof.
  unfold tableColumns.
  generalize (List.filter (idSat (fun s => includes s (basePrefix +:+ "::C::"))) controls)
    as cs.
  intros cs.
  assert (Hinit : Forall (scanned basePrefix) (∅ : gset string, [] : list Column).2)
    by constructor.
  revert Hinit. generalize (∅ : gset string, [] : list Column) as st.
  generalize cs at 2 as todo.
  induction todo as [|c todo IH]; intros st Hst; simpl; [done|].
  by apply IH, columnStep_scanned.
Qed.

Lemma extractTables_columns_shape_aux controls t c :
  t ∈ extractTables controls -> c ∈ columns t -> scanned (tableId t) c.
Proof.
  unfold extractTables. intros (root & -> & _)%list_elem_of_fmap. simpl.
  intros Hc.
  pose proof (tableColumns_scanned controls (default "" (id root))) as Hall.
  rewrite Forall_forall in Hall. by apply Hall.
Qed.

(** X7: every column that [extractTables] builds has a non-empty property
    key without a hyphen and a non-empty label, and its header cell id and
    selector are made of the table id, the column infix, the key and the
    inner-column suffix. *)
Theorem extractTables_columns_shape
    (controls : list Control) (t : TableDescriptor) (c : Column) :
  t ∈ extractTables controls -> c ∈ columns t ->
  colPropertyKey c <> EmptyString
  /\ includes (colPropertyKey c) "-" = false
  /\ colLabel c <> EmptyString
  /\ headerColumnId c
     = Some (tableId t +:+ "::C::" +:+ colPropertyKey c +:+ "-innerColumn")
  /\ headerColumnCss c
     = Some ("#" +:+ cssEscape (tableId t +:+ "::C::" +:+ colPropertyKey c
                                  +:+ "-innerColumn")).
Proof. apply extractTables_columns_shape_aux. Qed.

Lemma extractTables_columns_shape_witness :
  exists c,
    c ∈ columns (tableOf (controls Samples.listScan) Samples.tableRoot)
    /\ colPropertyKey c = "Price"
    /\ headerColumnId c = Some "App--fe::table::Items::LineItem::C::Price-innerColumn".
Proof.
  assert (Hc : {| colPropertyKey := "Price"; colLabel := "Price";
                  headerColumnId :=
                    Some "App--fe::table::Items::LineItem::C::Price-innerColumn";
                  headerColumnCss :=
                    Some "#App--fe\:\:table\:\:Items\:\:LineItem\:\:C\:\:Price-innerColumn" |}
               ∈ columns (tableOf (controls Samples.listScan) Samples.tableRoot)).
  { vm_compute. apply list_elem_of_here. }
  eexists. split; [exact Hc|].
  destruct (extractTables_columns_shape (controls Samples.listScan) _ _
              ltac:(vm_compute; apply list_elem_of_here) Hc) as (_ & _ & _ & Hid & _).
  split; [reflexivity|]. rewrite Hid. reflexivity.
Defined.

(** X8: the header cell id that [extractTables] derives for a column is
    read back as the property key of the column by the row extraction, when
    the column infix occurs in the table id followed by the infix at its end
    only and does not occur in the key: the rows are keyed by the property
    keys of the reconciled columns. *)
Theorem header_id_read_back
    (controls : list Control) (t : TableDescriptor) (c : Column) (hid : string) :
  t ∈ extractTables controls -> c ∈ columns t ->
  headerColumnId c = Some hid ->
  split "::C::" (tableId t +:+ "::C::") = [tableId t; EmptyString] ->
  includes (colPropertyKey c) "::C::" = false ->
  Rows.columnKey hid = colPropertyKey c.
Proof.
  intros Ht Hc Hhid Hbase Hkey.
  destruct (extractTables_columns_shape_aux controls t c Ht Hc) as (Hne & _ & _ & Hid & _).
  rewrite Hid in Hhid. injection Hhid as <-.
  unfold Rows.columnKey, splitSecond.
  pose proof (JsLaws.split_app_sep ":"%char ":C::" (tableId t)
                (colPropertyKey c +:+ "-innerColumn") Hbase) as Hs.
  cbn [String.append] in Hs. rewrite Hs.
  rewrite JsLaws.split_absent.
  - simpl. rewrite JsLaws.dropSuffix_app. by destruct (colPropertyKey c).
  - by apply (JsLaws.includes_app_foreign "-"%char "innerColumn" "::C::").
Qed.

Lemma header_id_read_back_witness :
  Rows.columnKey "App--fe::table::Items::LineItem::C::Price-innerColumn" = "Price".
Proof.
  apply (header_id_read_back (controls Samples.listScan)
           (tableOf (controls Samples.listScan) Samples.tableRoot)
           {| colPropertyKey := "Price"; colLabel := "Price";
              headerColumnId :=
                Some "App--fe::table::Items::LineItem::C::Price-innerColumn";
              headerColumnCss :=
                Some "#App--fe\:\:table\:\:Items\:\:LineItem\:\:C\:\:Price-innerColumn" |}).
  - vm_compute. apply list_elem_of_here.
  - vm_compute. apply list_elem_of_here.
  - reflexivity.
  - reflexivity.
  - reflexivity.
Defined.

End ReconcilerLaws.

(** ** Lists *)

Module ListLaws.

Lemma omap_length_le {A B : Type} (f : A -> option B) (l : list A) :
  length (omap f l) <= length l.
Proof. induction l as [|a l IH]; csimpl; [done|]. destruct (f a); simpl; lia. Qed.

End ListLaws.

(** ** Metadata reconciler: the merge of the dialog columns *)

Module MergeLaws.
Import Js Codec Reconciler Shapes ReconcilerFacts.

Lemma mergeColumns_keeps_labels cols labels l :
  l ∈ colLabel <$> cols -> l ∈ colLabel <$> mergeColumns cols labels.
Proof.
  intros Hl. destruct (mergeColumns_extends cols labels) as (added & -> & _).
  rewrite fmap_app. apply elem_of_app. by left.
Qed.

Lemma mergeColumns_covers cols labels l :
  l ∈ labels -> l ∈ colLabel <$> mergeColumns cols labels.
Proof.
  induction labels as [|x labels IH] using rev_ind; [intros H; inversion H|].
  intros [Hl|Hl]%elem_of_app; rewrite mergeColumns_snoc; case_bool_decide as Hin.
  - by apply IH.
  - rewrite fmap_app. apply elem_of_app. left. by apply IH.
  - apply list_elem_of_singleton in Hl as ->. by apply mergeColumns_keeps_labels.
  - apply list_elem_of_singleton in Hl as ->.
    rewrite fmap_app. apply elem_of_app. right. apply list_elem_of_here.
Qed.

Lemma mergeColumns_known cols labels :
  (forall l, l ∈ labels -> l ∈ colLabel <$> cols) -> mergeColumns cols labels = cols.
Proof.
  induction labels as [|x labels IH] using rev_ind; [done|].
  intros Hall. rewrite mergeColumns_snoc.
  rewrite bool_decide_eq_true_2.
  - apply IH. intros l Hl. apply Hall, elem_of_app. by left.
  - apply Hall, elem_of_app. right. apply list_elem_of_here.
Qed.

(** X9: after the merge every label of the dialog is the label of a column
    of the table, and the merge of the same dialog into the merged columns
    changes nothing. *)
Theorem mergeColumns_complete_and_stable (cols : list Column) (labels : list string) :
  (forall l, l ∈ labels -> l ∈ colLabel <$> mergeColumns cols labels)
  /\ mergeColumns (mergeColumns cols labels) labels = mergeColumns cols labels.
Proof.
  split.
  - intros l. apply mergeColumns_covers.
  - apply mergeColumns_known. intros l. apply mergeColumns_covers.
Qed.

Lemma kept_refl x : kept x x.
Proof.
  unfold kept. split_and!; try done. exists []. split; [by rewrite app_nil_r|constructor].
Qed.

Lemma kept_trans x y z : kept x y -> kept y z -> kept x z.
Proof.
  intros (H1 & H2 & H3 & H4 & H5 & H6 & a & Ha & Hfa)
         (K1 & K2 & K3 & K4 & K5 & K6 & b & Hb & Hfb).
  unfold kept. split_and!; try congruence.
  exists (a ++ b). split; [by rewrite Hb, Ha, app_assoc|by apply Forall_app].
Qed.

Lemma mergeInto_kept t tables : Forall2 kept tables (mergeInto t tables).
Proof.
  induction tables as [|x tables IH]; simpl; [constructor|].
  destruct (isTarget t x).
  - constructor.
    + unfold kept. simpl. split_and!; try done.
      destruct (mergeColumns_extends (columns x) (default [] (p13nColumns t)))
        as (added & -> & Hadded).
      exists added. split; [done|]. apply Forall_forall. intros c Hc.
      destruct (Hadded c Hc) as (l & -> & _). by exists l.
    + apply Forall2_same_length_lookup. split; [done|].
      intros i a b Ha Hb. rewrite Ha in Hb. injection Hb as <-. apply kept_refl.
  - constructor; [apply kept_refl|done].
Qed.

Lemma Forall2_kept_trans xs ys zs :
  Forall2 kept xs ys -> Forall2 kept ys zs -> Forall2 kept xs zs.
Proof.
  intros Hxy. revert zs. induction Hxy as [|x y xs ys Hk Hxy IH]; intros zs Hyz.
  - inversion Hyz. constructor.
  - inversion Hyz as [|? z ? zs' Hk' Hyz']; subst. constructor.
    + by apply (kept_trans x y z).
    + by apply IH.
Qed.

(** X10: whatever the dialog entries are, the merge keeps the tables: as
    many tables in the same order, each with its id, its inner ids, its
    selectors and its actions; the columns a table had stay at the front, in
    their order, and the columns added behind them are known by their label
    only. *)
Theorem mergeP13n_keeps_tables (tables : list TableDescriptor) (p13n : list P13n) :
  Forall2 kept tables (mergeP13n tables p13n).
Proof.
  unfold mergeP13n. revert tables.
  induction p13n as [|t p13n IH]; intros tables; simpl.
  - apply Forall2_same_length_lookup. split; [done|].
    intros i a b Ha Hb. rewrite Ha in Hb. injection Hb as <-. apply kept_refl.
  - apply (Forall2_kept_trans _ (mergeInto t tables)); [apply mergeInto_kept|apply IH].
Qed.

(** X11: a dialog entry designates every extracted table whose id
    contains the table id of the entry, not only the table that has this
    id: the selector of the table then contains the escaped id. *)
Theorem dialog_entry_targets_containing_ids
    (controls : list Control) (x : TableDescriptor) (t : P13n) (a b : string) :
  x ∈ extractTables controls ->
  tableId x = a +:+ p13nTableId t +:+ b ->
  isTarget t x = true.
Proof.
  unfold extractTables. intros (root & -> & _)%list_elem_of_fmap.
  unfold isTarget. cbn [tableOf tableId tableSelectors tableCss]. intros ->.
  rewrite !CodecFacts.cssEscape_app.
  rewrite (JsFacts.includes_app_r "#"); [apply orb_true_r|].
  apply JsFacts.includes_middle.
Qed.

Lemma dialog_entry_targets_containing_ids_witness :
  isTarget {| p13nTableId := "table::Items"; p13nColumns := None |}
           (tableOf (controls Samples.listScan) Samples.tableRoot) = true.
Proof.
  apply (dialog_entry_targets_containing_ids (controls Samples.listScan) _ _
           "App--fe::" "::LineItem").
  - vm_compute. apply list_elem_of_here.
  - reflexivity.
Defined.

End MergeLaws.

(** ** The command line and the extracted filters *)

Module LookupLaws.
Import Js Codec Reconciler Resolver ReconcilerFacts ResolverFacts.

Lemma find_unique {A : Type} (key : A -> string) (l : list A) (d : A) :
  NoDup (key <$> l) -> d ∈ l ->
  List.find (fun x => String.eqb (key x) (key d)) l = Some d.
Proof.
  induction l as [|a l IH]; [intros _ H; inversion H|].
  csimpl. intros [Hnotin Hnd]%NoDup_cons [->|Hd]%elem_of_cons.
  - by rewrite String.eqb_refl.
  - destruct (String.eqb_spec (key a) (key d)) as [Heq|_]; [|by apply IH].
    exfalso. apply Hnotin. rewrite Heq. by apply list_elem_of_fmap_2.
Qed.

(** X12: every filter descriptor that [extractFilters] writes is the one
    the command line finds under its property key: its [setFilter] does not
    raise the not-found error for a key of the extraction. *)
Theorem extracted_filter_found_by_key
    (controls : list Control) (d : FilterDescriptor) (value : string) :
  d ∈ extractFilters controls ->
  cliFind (extractFilters controls) (propertyKey d) = Some d
  /\ snd (cliSetFilter (extractFilters controls) (propertyKey d) value)
     <> Throws ("Filter not found: " +:+ propertyKey d).
Proof.
  intros Hd.
  assert (Hfind : cliFind (extractFilters controls) (propertyKey d) = Some d).
  { unfold cliFind.
    apply (find_unique propertyKey); [apply extractFilters_keys_unique|done]. }
  split; [exact Hfind|]. unfold cliSetFilter. rewrite Hfind.
  destruct (truthy (inputCss (selectors d))); [done|].
  destruct (truthy (selectCss (selectors d))); [done|].
  by destruct (filterFieldCss (selectors d)).
Qed.

Lemma extracted_filter_found_by_key_witness :
  exists d,
    propertyKey d = "Status"
    /\ cliFind (extractFilters (controls Samples.listScan)) "Status" = Some d.
Proof.
  assert (Hd : descriptorOf "Status" (Samples.filterItem "Status" "Status")
               ∈ extractFilters (controls Samples.listScan)).
  { vm_compute. apply list_elem_of_further, list_elem_of_here. }
  eexists. split; [|exact (proj1 (extracted_filter_found_by_key _ _ "Open" Hd))].
  reflexivity.
Defined.

(** X13: a query that is the property key or the label of a persisted
    filter is always resolved by [setFilter]: to the first filter whose
    normalized key or label contains the normalized query, which need not be
    the filter that has the key. *)
Theorem setFilter_listed_query_resolves
    (filters : list FilterDescriptor) (f : FilterDescriptor) (query value : string) :
  f ∈ filters ->
  propertyKey f = query \/ label f = Some query ->
  exists before g after,
    filters = before ++ g :: after
    /\ findFilter filters query = Some g
    /\ contains query g = true
    /\ (forall h, h ∈ before -> contains query h = false)
    /\ fst (setFilter filters query value) = fst (operate g value).
Proof.
  intros Hf Hq. unfold setFilter, findFilter.
  pose proof (find_first (matchesTerm (normalize (Some query))) filters) as Hfind.
  destruct (List.find _ filters) as [g|].
  - destruct Hfind as (before & after & -> & Hg & Hbefore).
    exists before, g, after. split_and!; try done.
    + by rewrite <- matchesTerm_contains.
    + intros h Hh. rewrite <- matchesTerm_contains. by apply Hbefore.
    + by destruct (operate g value) as [ops [err|]].
  - specialize (Hfind f Hf). rewrite matchesTerm_contains in Hfind.
    by rewrite contains_exact in Hfind.
Qed.

Lemma setFilter_listed_query_resolves_witness :
  exists before g after,
    travelFilters = before ++ g :: after
    /\ findFilter travelFilters "Trip" = Some g
    /\ contains "Trip" g = true
    /\ (forall h, h ∈ before -> contains "Trip" h = false)
    /\ fst (setFilter travelFilters "Trip" "42") = fst (operate g "42").
Proof.
  apply (setFilter_listed_query_resolves travelFilters (inputFilter "Travel" "Trip")).
  - vm_compute. apply list_elem_of_further, list_elem_of_here.
  - right. reflexivity.
Defined.

(** X14: the interaction of [setFilter] with a resolved filter addresses
    the elements of that filter only: every operation on the page goes to
    the input, the select or the field selector of the descriptor, or to the
    item of the open list that shows the value; and with an input selector
    the input is emptied before the value is filled in. *)
Theorem operate_within_descriptor (f : FilterDescriptor) (value : string) :
  Forall (fun op =>
            match op with
            | Fill s _ | Dispatch s _ => Some s = inputCss (selectors f)
                                         \/ Some s = filterFieldCss (selectors f)
            | Click s => Some s = selectCss (selectors f)
                         \/ Some s = filterFieldCss (selectors f)
                         \/ s = popupItem value
            | KeyboardType v => v = value
            end)
         (fst (operate f value))
  /\ (truthy (inputCss (selectors f)) = true ->
      exists css, inputCss (selectors f) = Some css
                  /\ operate f value
                     = ([Fill css ""; Fill css value;
                         Dispatch css ["input"; "change"; "blur"]], None)).
Proof.
  unfold operate. split.
  - destruct (inputCss (selectors f)) as [[|a s]|]; simpl;
      try (destruct (selectCss (selectors f)) as [[|b r]|]; simpl);
      try (destruct (filterFieldCss (selectors f)); simpl);
      repeat first [apply Forall_nil_2|apply Forall_cons_2]; auto.
  - destruct (inputCss (selectors f)) as [[|a s]|]; simpl; try done.
    intros _. by eexists.
Qed.

Lemma operate_within_descriptor_witness :
  exists css,
    inputCss (selectors (inputFilter "Travel" "Trip")) = Some css
    /\ operate (inputFilter "Travel" "Trip") "42"
       = ([Fill css ""; Fill css "42"; Dispatch css ["input"; "change"; "blur"]], None).
Proof.
  apply (proj2 (operate_within_descriptor (inputFilter "Travel" "Trip") "42")).
  reflexivity.
Defined.

End LookupLaws.

(** ** The column settings dialog *)

Module SettingsLaws.
Import Js Dom Reconciler Settings.

(** X15: the entry the scanner pushes for the settings button of a table
    designates that table: merged into a list that starts with the table, it
    gives the table the labels of the dialog and marks the source. *)
Theorem settings_entry_reaches_table
    (x : TableDescriptor) (rest : list TableDescriptor) (dialog : document) :
  isTarget (p13nOf (tableId x +:+ "-settings") dialog) x = true
  /\ exists x',
       mergeInto (p13nOf (tableId x +:+ "-settings") dialog) (x :: rest) = x' :: rest
       /\ tableId x' = tableId x
       /\ columns x' = mergeColumns (columns x) (dialogLabels dialog)
       /\ columnsSource x' = Some "scan+dialog".
Proof.
  assert (Ht : isTarget (p13nOf (tableId x +:+ "-settings") dialog) x = true).
  { unfold isTarget, p13nOf, settingsTableId. cbn [p13nTableId].
    by rewrite JsLaws.dropSuffix_app, String.eqb_refl. }
  split; [exact Ht|]. cbn [mergeInto]. rewrite Ht. by eexists.
Qed.

(** X16: the labels read from the settings dialog are not empty and carry
    no white space around them; there are at most as many as the panel has
    rows. *)
Theorem dialogLabels_trimmed (doc : document) :
  Forall (fun l => l <> EmptyString /\ trim l = l) (dialogLabels doc)
  /\ length (dialogLabels doc) <= length (docQuerySelectorAll panelRowSel doc).
Proof.
  unfold dialogLabels. split.
  - apply Forall_forall. intros l (r & _ & Hl)%list_elem_of_omap.
    destruct (querySelector labelSel r) as [bdi|]; [|done].
    destruct (trim (Dom.text bdi)) as [|a s] eqn:Htrim; [done|].
    injection Hl as <-. split; [done|]. rewrite <- Htrim. apply JsLaws.trim_idem.
  - apply ListLaws.omap_length_le.
Qed.

End SettingsLaws.

(** ** Row extraction: the tables read *)

Module TableLaws.
Import Js Dom Rows.

(** X17: every table that [getTableRows] reads is a table whose id ends
    with the list suffix; its row count is the number of its rows, and no
    row object has a property twice or one with an empty name. *)
Theorem getTableRows_rows_well_keyed (doc : document) (t : tableRows) :
  t ∈ getTableRows doc ->
  endsWith (tableListId t) "-innerTable-listUl" = true
  /\ rowCount t = length (rows t)
  /\ Forall (fun r => NoDup (fst <$> r)
                      /\ Forall (fun key => key <> EmptyString) (fst <$> r))
            (rows t).
Proof.
  unfold getTableRows. intros (tbl & -> & Htbl)%list_elem_of_fmap.
  apply list_elem_of_In, filter_In in Htbl as [_ Hm].
  split; [|split; [done|]].
  - unfold matches, tableSel, only, matches_complex in Hm. simpl in Hm.
    rewrite !andb_true_r, orb_false_r in Hm.
    by apply andb_prop in Hm as [_ Hm].
  - unfold readTable. cbn [rows]. apply Forall_fmap, Forall_forall.
    intros tr _. apply RowsLaws.readRow_keys.
Qed.

Lemma getTableRows_rows_well_keyed_witness :
  exists t,
    t ∈ getTableRows reportPage
    /\ endsWith (tableListId t) "-innerTable-listUl" = true
    /\ rowCount t = 3.
Proof.
  assert (Ht : readTable reportPage
                 {| ancestors := [];
                    self := el "table" "T::table::LineItem-innerTable-listUl"
                              ["sapMListTbl"] [];
                    kids := match reportPage with
                            | [Elem _ ch] => ch
                            | _ => []
                            end |}
               ∈ getTableRows reportPage).
  { vm_compute. apply list_elem_of_here. }
  eexists. split; [exact Ht|].
  destruct (getTableRows_rows_well_keyed reportPage _ Ht) as (Hid & Hcount & _).
  split; [exact Hid|]. reflexivity.
Defined.

End TableLaws.

(** ** Interaction executor: the messages and the two functions *)

Module ExecutorLaws.
Import Js Dom Executor.

Lemma collect_text cls t m :
  m ∈ collect cls t -> msgText m = t /\ t <> EmptyString.
Proof.
  unfold collect. destruct t as [|a s]; [intros H; inversion H|].
  by intros ->%list_elem_of_singleton.
Qed.

Lemma cleanText_trimmed o : trim (cleanText o) = cleanText o.
Proof. unfold cleanText. apply JsLaws.trim_idem. Qed.

Lemma elem_of_flat_map {A B : Type} (f : A -> list B) (l : list A) (y : B) :
  y ∈ flat_map f l -> exists x, x ∈ l /\ y ∈ f x.
Proof.
  intros (x & Hx & Hy)%list_elem_of_In%in_flat_map.
  exists x. split; by apply list_elem_of_In.
Qed.

Lemma popoverMessages_worded fallback doc m :
  m ∈ popoverMessages fallback doc ->
  msgText m <> EmptyString /\ trim (msgText m) = msgText m.
Proof.
  unfold popoverMessages. destruct (docQuerySelector popoverSel doc); [|intros H; inversion H].
  intros (li & _ & Hm)%elem_of_flat_map.
  apply collect_text in Hm as [-> Hne]. split; [done|apply cleanText_trimmed].
Qed.

Lemma messageBoxMessages_worded doc m :
  m ∈ messageBoxMessages doc ->
  msgText m <> EmptyString /\ trim (msgText m) = msgText m.
Proof.
  unfold messageBoxMessages. intros (dlg & _ & Hm)%elem_of_flat_map.
  apply collect_text in Hm as [-> Hne]. split; [done|apply cleanText_trimmed].
Qed.

Lemma stripMessages_worded doc m :
  m ∈ stripMessages doc ->
  msgText m <> EmptyString /\ trim (msgText m) = msgText m.
Proof.
  unfold stripMessages. intros (strip & _ & Hm)%elem_of_flat_map.
  apply collect_text in Hm as [-> Hne]. split; [done|apply JsLaws.trim_idem].
Qed.

(** X18: a message that [executeAction] or [executeTableAction] reports
    has a text that is not empty and has no white space around it, and
    [executeAction] never reports [error_messages] with no message. *)
Theorem reported_messages_have_text (doc : document) (ms : list message) :
  executeAction doc = ErrorMessages ms \/ executeTableAction doc = ErrorMessages ms ->
  Forall (fun m => msgText m <> EmptyString /\ trim (msgText m) = msgText m) ms
  /\ (executeAction doc = ErrorMessages ms -> ms <> []).
Proof.
  intros Hr. split.
  - apply Forall_forall. intros m Hm. destruct Hr as [Hr|Hr].
    + unfold executeAction in Hr.
      destruct (popoverMessages itemTextFallbackSel doc ++ messageBoxMessages doc)
        as [|m0 ms0] eqn:Hms.
      { by repeat case_match. }
      injection Hr as <-. rewrite <- Hms in Hm.
      apply elem_of_app in Hm as [Hm|Hm];
        [by eapply popoverMessages_worded|by apply (messageBoxMessages_worded doc)].
    + unfold executeTableAction in Hr. destruct (detectScenario doc); try done.
      injection Hr as <-.
      apply elem_of_app in Hm as [Hm|[Hm|Hm]%elem_of_app];
        [by eapply popoverMessages_worded
        |by apply (messageBoxMessages_worded doc)
        |by apply (stripMessages_worded doc)].
  - unfold executeAction.
    destruct (popoverMessages itemTextFallbackSel doc ++ messageBoxMessages doc)
      as [|m0 ms0]; [by repeat case_match|]. by intros [= <-].
Qed.

Lemma reported_messages_have_text_witness :
  Forall (fun m => msgText m <> EmptyString /\ trim (msgText m) = msgText m)
         [{| msgSeverity := Error; msgText := "Agency ID is mandatory" |}]
  /\ (executeAction dialogAndPopover
      = ErrorMessages [{| msgSeverity := Error; msgText := "Agency ID is mandatory" |}]
      -> [{| msgSeverity := Error; msgText := "Agency ID is mandatory" |}] <> []).
Proof.
  apply (reported_messages_have_text dialogAndPopover). left. reflexivity.
Defined.

Lemma head_none {A : Type} (l : list A) : head l = None -> l = [].
Proof. by destruct l. Qed.

(** X19: on a page that shows no message popover, no message box and no
    message strip, [executeAction] and [executeTableAction] detect the same
    scenario and take the form fields from the same input elements; their
    results differ in one point only, the name of the dialog, which
    [executeTableAction] adds to a [popup_dialog] result and [executeAction]
    never gives. *)
Theorem executors_agree_up_to_dialog_id (doc : document) :
  docQuerySelector popoverSel doc = None ->
  docQuerySelector messageBoxSel doc = None ->
  docQuerySelector stripSel doc = None ->
  scenarioOf (executeTableAction doc) = scenarioOf (executeAction doc)
  /\ executeAction doc = Shapes.withoutDialogId (executeTableAction doc)
  /\ (scenarioOf (executeAction doc) = popup_dialog ->
      executeAction doc = PopupDialog None (dialogFields doc)
      /\ executeTableAction doc
         = PopupDialog (Some (openDialogId doc)) (dialogFields doc)).
Proof.
  intros Hp Hb Hs.
  unfold executeAction, executeTableAction, detectScenario, popoverMessages,
    messageBoxMessages.
  rewrite Hp, Hb, Hs. rewrite (head_none _ Hb). simpl.
  destruct (dialogWithFormAndFooter doc); [done|].
  by destruct (present (docQuerySelector objectPageSel doc)
               || present (docQuerySelector formFieldSel doc)).
Qed.

Lemma executors_agree_up_to_dialog_id_witness :
  scenarioOf (executeTableAction Fixtures.dialogPage)
  = scenarioOf (executeAction Fixtures.dialogPage)
  /\ executeAction Fixtures.dialogPage
     = Shapes.withoutDialogId (executeTableAction Fixtures.dialogPage)
  /\ (scenarioOf (executeAction Fixtures.dialogPage) = popup_dialog ->
      executeAction Fixtures.dialogPage
      = PopupDialog None (dialogFields Fixtures.dialogPage)
      /\ executeTableAction Fixtures.dialogPage
         = PopupDialog (Some (openDialogId Fixtures.dialogPage))
                       (dialogFields Fixtures.dialogPage)).
Proof. apply executors_agree_up_to_dialog_id; reflexivity. Defined.

(** X20: [executeAction] does not look at message strips.  On a page
    without a message popover and without a message box it never reports
    [error_messages]; when such a page shows a message strip and no form
    dialog, [executeTableAction] reports [error_messages] with the messages
    of the strips. *)
Theorem executeAction_ignores_strips (doc : document) :
  docQuerySelector popoverSel doc = None ->
  docQuerySelector messageBoxSel doc = None ->
  scenarioOf (executeAction doc) <> error_messages
  /\ (dialogWithFormAndFooter doc = false ->
      docQuerySelector stripSel doc <> None ->
      executeTableAction doc = ErrorMessages (stripMessages doc)).
Proof.
  intros Hp Hb. split.
  - unfold executeAction, popoverMessages, messageBoxMessages.
    rewrite Hp, (head_none _ Hb). simpl. by repeat case_match.
  - intros Hd Hs.
    unfold executeTableAction, detectScenario, popoverMessages, messageBoxMessages.
    rewrite Hd, Hp, Hb, (head_none _ Hb). simpl.
    by destruct (docQuerySelector stripSel doc).
Qed.

Lemma executeAction_ignores_strips_witness :
  scenarioOf (executeAction Fixtures.stripPage) <> error_messages
  /\ executeTableAction Fixtures.stripPage
     = ErrorMessages [{| msgSeverity := Error; msgText := "Saved with errors" |}].
Proof.
  destruct (executeAction_ignores_strips Fixtures.stripPage) as [Ha Ht];
    [reflexivity|reflexivity|].
  split; [exact Ha|]. rewrite Ht; [reflexivity|reflexivity|]. by vm_compute.
Defined.

End ExecutorLaws.

(** ** Control scanner: what a scanned control tells *)

Module ScannerLaws.
Import Js Scanner ScannerFacts.

(** The shell filter is the only place where [includeShell] is read: with
    the filter on, an entry gives what it gives with the filter off, or
    nothing when its type is a shell type that is not interactive. *)
Lemma extractControl_shell e :
  extractControl false e = extractControl true e
  \/ (extractControl false e = Ret None
      /\ exists ty, getName e = Ret ty
                    /\ isShellType ty = true /\ isInteractive ty = false).
Proof.
  unfold extractControl. destruct (getName e) as [ty|]; [|by left]. cbn [bind].
  destruct (optcall (getId e)) as [i|]; [|by left]. cbn [bind].
  destruct (optcall (getDomRef e)) as [[dom|]|]; [|by left|by left]. cbn [bind].
  destruct (isShellType ty) eqn:Hs, (isInteractive ty) eqn:Hi; cbn [negb andb];
    try (by left).
  right. split; [done|]. by exists ty.
Qed.

Lemma controlOf_shell e :
  controlOf false e = controlOf true e \/ controlOf false e = None.
Proof.
  unfold controlOf.
  destruct (extractControl_shell e) as [->|[-> _]]; [by left|by right].
Qed.

Lemma omap_sublist {A B : Type} (f g : A -> option B) (l : list A) :
  (forall x, f x = g x \/ f x = None) -> sublist (omap f l) (omap g l).
Proof.
  intros H. induction l as [|a l IH]; csimpl; [constructor|].
  destruct (H a) as [->| ->].
  - destruct (g a); [by apply sublist_skip|done].
  - destruct (g a); [by apply sublist_cons|done].
Qed.

(** What the extraction of an entry records in the control it yields. *)
Lemma extractControl_shape includeShell e c :
  extractControl includeShell e = Ret (Some c) ->
  getName e = Ret (type c)
  /\ optcall (getId e) = Ret (id c)
  /\ (exists dom, optcall (getDomRef e) = Ret (Some dom))
  /\ (includeShell = false -> isShellType (type c) && negb (isInteractive (type c)) = false)
  /\ localId c = localIdOf (id c)
  /\ cssId c = "#" +:+ show (escapeCss (id c))
  /\ roleHint c = classify (type c) (role c)
  /\ (tableInfo c <> None -> roleHint c = Some "table")
  /\ (filterBarInfo c <> None -> roleHint c = Some "filterbar").
Proof.
  unfold extractControl. destruct (getName e) as [ty|]; [|done]. cbn [bind].
  destruct (optcall (getId e)) as [i|]; [|done]. cbn [bind].
  destruct (optcall (getDomRef e)) as [[dom|]|]; [|done|done]. cbn [bind].
  destruct (negb includeShell && isShellType ty && negb (isInteractive ty)) eqn:Hshell;
    [done|].
  destruct (optcall (getVisible e)) as [v|]; [|done]. cbn [bind].
  destruct (optcall (getEnabled e)) as [en|]; [|done]. cbn [bind].
  destruct (readValue (getPlaceholder e)) as [ph|]; [|done]. cbn [bind].
  destruct (readValue (getValue e)) as [val|]; [|done]. cbn [bind].
  destruct (match bindingInfos e with Some infos => readBindings infos [] | None => Ret [] end)
    as [bp|]; [|done]. cbn [bind].
  intros [= <-]. cbn. split_and!; try done.
  - by exists dom.
  - intros ->. by rewrite <- andb_assoc in Hshell.
  - destruct (opt_is (classify ty (orUndefined (attrRole dom))) "table") eqn:Ht; [|done].
    intros _. unfold opt_is in Ht.
    destruct (classify ty (orUndefined (attrRole dom))) as [w|]; [|done].
    by apply String.eqb_eq in Ht as ->.
  - destruct (opt_is (classify ty (orUndefined (attrRole dom))) "filterbar") eqn:Ht; [|done].
    intros _. unfold opt_is in Ht.
    destruct (classify ty (orUndefined (attrRole dom))) as [w|]; [|done].
    by apply String.eqb_eq in Ht as ->.
Qed.

(** X21: the scan without the shell lists a part of what the scan with the
    shell lists, in the same order; what it leaves out are controls of a
    shell type that is not interactive, and it lists no such control. *)
Theorem scan_shell_filter (entries : list Entry) :
  sublist (controls (extractUi5Controls false (Some entries)))
          (controls (extractUi5Controls true (Some entries)))
  /\ (forall c, c ∈ controls (extractUi5Controls false (Some entries)) ->
        isShellType (type c) && negb (isInteractive (type c)) = false)
  /\ (forall e c, e ∈ entries -> extractControl true e = Ret (Some c) ->
        isShellType (type c) && negb (isInteractive (type c)) = false ->
        c ∈ controls (extractUi5Controls false (Some entries))).
Proof.
  cbn [extractUi5Controls controls]. rewrite !scan_from. cbn [app].
  split; [|split].
  - apply omap_sublist, controlOf_shell.
  - intros c (e & _ & Hc)%list_elem_of_omap. unfold controlOf in Hc.
    destruct (extractControl false e) as [r|] eqn:He; [|done]. subst r.
    destruct (extractControl_shape false e c He) as (_ & _ & _ & Hshell & _).
    by apply Hshell.
  - intros e c He Hc Hkeep. apply list_elem_of_omap. exists e. split; [done|].
    unfold controlOf.
    destruct (extractControl_shell e) as [->|(_ & ty & Hty & Hs & Hi)];
      [by rewrite Hc|].
    destruct (extractControl_shape true e c Hc) as (Hname & _).
    rewrite Hname in Hty. injection Hty as <-. by rewrite Hs, Hi in Hkeep.
Qed.

(** X22: every control of a scan comes from an entry of the registry that
    is rendered; it carries the type and the id of the entry, its local id
    and its selector are derived from that id, its role hint is the
    classification of its type and role, and it has table facts only as a
    table and filter bar facts only as a filter bar. *)
Theorem scanned_control_shape
    (includeShell : bool) (entries : list Entry) (c : Control) :
  c ∈ controls (extractUi5Controls includeShell (Some entries)) ->
  exists e,
    e ∈ entries
    /\ getName e = Ret (type c)
    /\ optcall (getId e) = Ret (id c)
    /\ (exists dom, optcall (getDomRef e) = Ret (Some dom))
    /\ localId c = localIdOf (id c)
    /\ cssId c = "#" +:+ show (escapeCss (id c))
    /\ roleHint c = classify (type c) (role c)
    /\ (tableInfo c <> None -> roleHint c = Some "table")
    /\ (filterBarInfo c <> None -> roleHint c = Some "filterbar").
Proof.
  cbn [extractUi5Controls controls]. rewrite scan_from. cbn [app].
  intros (e & He & Hc)%list_elem_of_omap. exists e. split; [done|].
  unfold controlOf in Hc.
  destruct (extractControl includeShell e) as [r|] eqn:Hr; [|done]. subst r.
  destruct (extractControl_shape includeShell e c Hr)
    as (? & ? & ? & _ & ? & ? & ? & ? & ?).
  by split_and!.
Qed.

Lemma scanned_control_shape_witness :
  exists c e,
    c ∈ controls (extractUi5Controls false (Some Fixtures.shellRegistry))
    /\ id c = Some "App--fe::FilterBar::Items"
    /\ e ∈ Fixtures.shellRegistry
    /\ getName e = Ret (type c)
    /\ localId c = localIdOf (id c).
Proof.
  assert (Hc : exists c,
             controlOf false Fixtures.filterBarEntry = Some c
             /\ c ∈ controls (extractUi5Controls false (Some Fixtures.shellRegistry))).
  { eexists. split; [by vm_compute|].
    vm_compute. apply list_elem_of_further, list_elem_of_here. }
  destruct Hc as (c & Hc & Hin).
  destruct (scanned_control_shape false Fixtures.shellRegistry c Hin)
    as (e & He & Hname & _ & _ & Hlocal & _).
  exists c, e. split_and!; try done.
  vm_compute in Hc. by injection Hc as <-.
Defined.

(** X23: the item count of a filter bar is the number of the items its
    control returns, the items whose extraction raises included; the items
    listed are those whose extraction succeeds, never more than the count,
    each with the local id of its id. *)
Theorem readFilterBarInfo_counts_all_items (e : Entry) (info : FilterBarInfo) :
  readFilterBarInfo e = Some info ->
  length (items info) <= filterItemCount info
  /\ (forall its, getFilterItems e = Some (Ret (Some its)) ->
        filterItemCount info = length its
        /\ length (items info)
           = length (List.filter (fun it => match readItem it with
                                            | Ret _ => true
                                            | Raise => false
                                            end) its))
  /\ Forall (fun i => itemLocalId i = localIdOf (itemId i)) (items info).
Proof.
  unfold readFilterBarInfo.
  destruct (match getBasicSearch e with Some c => c | None => Ret false end) as [bs|];
    [|done]. cbn [bind].
  destruct (optcall (getFilterItems e)) as [fi|] eqn:Hfi; [|done]. cbn [bind try].
  intros [= <-]. cbn [items filterItemCount]. split; [|split].
  - apply ListLaws.omap_length_le.
  - intros its Hits. rewrite Hits in Hfi. cbn in Hfi. injection Hfi as <-.
    split; [done|].
    clear Hits. unfold default, from_option, Datatypes.id.
    induction its as [|it its IH]; csimpl; [done|].
    destruct (readItem it); simpl; by rewrite ?IH.
  - apply Forall_forall. intros i (it & _ & Hi)%list_elem_of_omap.
    destruct (readItem it) as [info|] eqn:Hit; [|done]. injection Hi as ->.
    unfold readItem in Hit.
    destruct (optcall (itGetId it)) as [iid|]; [|done]. cbn [bind] in Hit.
    destruct (optcall (itGetDomRef it)) as [idom|]; [|done]. cbn [bind] in Hit.
    destruct (itGetName it) as [ity|]; [|done]. cbn [bind] in Hit.
    destruct (match itGetPropertyKey it with
              | Some c => c
              | None => match itGetFieldPath it with Some c => c | None => Ret None end
              end) as [pk|]; [|done].
    cbn [bind] in Hit. destruct (sniff idom) as [hint ids].
    by injection Hit as <-.
Qed.

Lemma readFilterBarInfo_counts_all_items_witness :
  exists info,
    readFilterBarInfo Fixtures.filterBarEntry = Some info
    /\ filterItemCount info = 3
    /\ length (items info) = 2.
Proof.
  assert (Hinfo : exists info, readFilterBarInfo Fixtures.filterBarEntry = Some info).
  { eexists. by vm_compute. }
  destruct Hinfo as [info Hinfo]. exists info. split; [done|].
  destruct (readFilterBarInfo_counts_all_items _ _ Hinfo) as (_ & Hcount & _).
  destruct (Hcount _ eq_refl) as [-> ->]. split; reflexivity.
Defined.

(** X24: the local id of a control is what follows the last view
    separator of its id: it ends the id and holds no view separator. *)
Theorem localIdOf_suffix (s l : string) :
  localIdOf (Some s) = Some l ->
  endsWith s l = true /\ includes l "--" = false.
Proof.
  unfold localIdOf. destruct (includes s "--") eqn:Hin.
  - intros [= <-]. unfold splitLast, split.
    destruct (split_from "--" 0 s) as [p ps] eqn:Hs. split.
    + by apply (JsLaws.split_from_last_suffix "--" s 0).
    + pose proof (JsLaws.split_from_pieces_free "-"%char "-" s 0 p ps Hs) as Hall.
      rewrite Forall_forall in Hall.
      destruct (last (p :: ps)) as [q|] eqn:Hlast; [|done].
      apply Hall. by apply last_Some_elem_of.
  - intros [= <-]. split; [apply JsLaws.endsWith_refl|done].
Qed.

Lemma localIdOf_suffix_witness :
  endsWith "App--fe::table::Items" "fe::table::Items" = true
  /\ includes "fe::table::Items" "--" = false.
Proof. apply localIdOf_suffix. reflexivity. Defined.

End ScannerLaws.

(** ** Form field resolution *)

Module FormsLaws.
Import Js Forms.

Lemma exactName_partial t f : exactName t f = true -> partial t f = true.
Proof.
  unfold exactName, partial. intros ->%String.eqb_eq.
  by rewrite JsFacts.includes_refl.
Qed.

Lemma exactLabel_partial t f : exactLabel t f = true -> partial t f = true.
Proof.
  unfold exactLabel, partial. intros ->%String.eqb_eq.
  rewrite JsFacts.includes_refl. by rewrite orb_true_r.
Qed.

Lemma find_sound {A : Type} (p : A -> bool) (l : list A) (x : A) :
  List.find p l = Some x -> x ∈ l /\ p x = true.
Proof.
  intros H. pose proof (ResolverFacts.find_first p l) as Hf. rewrite H in Hf.
  destruct Hf as (before & after & -> & Hx & _). split; [|done].
  apply elem_of_app. right. apply list_elem_of_here.
Qed.

Lemma find_ext {A : Type} (p q : A -> bool) (l : list A) :
  (forall x, x ∈ l -> p x = q x) -> List.find p l = List.find q l.
Proof.
  induction l as [|a l IH]; [done|]. intros H. simpl.
  rewrite (H a); [|by left]. destruct (q a); [done|].
  apply IH. intros x Hx. apply H. by right.
Qed.

Lemma orTry_some a b f :
  orTry a b = Some f -> a = Some f \/ (a = None /\ b = Some f).
Proof. destruct a; simpl; [by left|by right]. Qed.

Lemma orTry_none a b : orTry a b = None <-> a = None /\ b = None.
Proof. destruct a; simpl; [|tauto]. split; [done|by intros [? _]]. Qed.

Lemma anyField_sound fields t f :
  anyField fields t = Some f -> f ∈ fields /\ partial t f = true.
Proof.
  unfold anyField.
  intros [H|[_ [H|[_ H]]%orTry_some]]%orTry_some; apply find_sound in H as [Hin Hp].
  - split; [done|by apply exactName_partial].
  - split; [done|by apply exactLabel_partial].
  - done.
Qed.

Lemma anyField_none fields t :
  anyField fields t = None <-> forall f, f ∈ fields -> partial t f = false.
Proof.
  unfold anyField. rewrite !orTry_none. split.
  - intros (_ & _ & H). pose proof (ResolverFacts.find_first (partial t) fields) as Hf.
    by rewrite H in Hf.
  - intros H. split_and!; apply ResolverFacts.find_none; intros f Hf.
    + destruct (exactName t f) eqn:He; [|done].
      apply exactName_partial in He. by rewrite (H f Hf) in He.
    + destruct (exactLabel t f) eqn:He; [|done].
      apply exactLabel_partial in He. by rewrite (H f Hf) in He.
    + by apply H.
Qed.

(** X25: [fillFormField] fills a field of the page whose normalized field
    name, label or id contains the normalized name asked for, and it
    answers that the field is not found exactly when no field of the page
    does, on an object page as on a list page. *)
Theorem matchField_finds_containing
    (fields : list Field) (isObjectPage : bool) (name : string) :
  match matchField fields isObjectPage name with
  | Some f => f ∈ fields /\ partial (norm name) f = true
  | None => forall f, f ∈ fields -> partial (norm name) f = false
  end.
Proof.
  unfold matchField. destruct isObjectPage.
  - destruct (orTry _ _) as [f|] eqn:Hm.
    + apply orTry_some in Hm as [H|[_ Hm]];
        [|apply orTry_some in Hm as [H|[_ Hm]];
          [|apply orTry_some in Hm as [H|[_ H]]]].
      * apply find_sound in H as [Hin [Hp _]%andb_prop].
        split; [done|by apply exactName_partial].
      * apply find_sound in H as [Hin [Hp _]%andb_prop].
        split; [done|by apply exactLabel_partial].
      * by apply find_sound in H as [Hin [_ Hp]%andb_prop].
      * by apply anyField_sound.
    + apply orTry_none in Hm as [_ Hm]. apply orTry_none in Hm as [_ Hm].
      apply orTry_none in Hm as [_ Hm]. by apply anyField_none.
  - destruct (anyField fields (norm name)) as [f|] eqn:Hm.
    + by apply anyField_sound.
    + by apply anyField_none.
Qed.

(** X26: the order of the lookups.  On a list page a field whose
    normalized field name is the normalized name asked for wins over the
    fields before it that only contain the name: the first such field is
    filled.  On an object page a filter field is filled only when no other
    field contains the name. *)
Theorem matchField_priorities (fields : list Field) (name : string) :
  (forall before f after,
      fields = before ++ f :: after ->
      exactName (norm name) f = true ->
      (forall g, g ∈ before -> exactName (norm name) g = false) ->
      matchField fields false name = Some f)
  /\ (forall f g,
        matchField fields true name = Some f ->
        g ∈ fields -> isFilterField g = false -> partial (norm name) g = true ->
        isFilterField f = false).
Proof.
  split.
  - intros before f after -> Hf Hbefore. unfold matchField, anyField.
    assert (Hfind : List.find (exactName (norm name)) (before ++ f :: after) = Some f).
    { clear -Hf Hbefore. induction before as [|b before IH]; simpl.
      - by rewrite Hf.
      - rewrite (Hbefore b); [|by left]. apply IH. intros g Hg. apply Hbefore. by right. }
    by rewrite Hfind.
  - intros f g Hm Hg Hgf Hgp. unfold matchField in Hm.
    apply orTry_some in Hm as [H|[_ Hm]];
      [|apply orTry_some in Hm as [H|[_ Hm]];
        [|apply orTry_some in Hm as [H|[H _]]]].
    + apply find_sound in H as [_ [_ Hn]%andb_prop]. by apply negb_true_iff in Hn.
    + apply find_sound in H as [_ [_ Hn]%andb_prop]. by apply negb_true_iff in Hn.
    + apply find_sound in H as [_ [Hn _]%andb_prop]. by apply negb_true_iff in Hn.
    + pose proof (ResolverFacts.find_first
                    (fun f => negb (isFilterField f) && partial (norm name) f) fields) as Hf.
      rewrite H in Hf. specialize (Hf g Hg). by rewrite Hgf, Hgp in Hf.
Qed.

Lemma matchField_priorities_witness :
  matchField
    [{| id := "a"; label := "Agency name"; fieldName := "agencyname"; selector := "#a" |};
     {| id := "b"; label := "Agency"; fieldName := "agency"; selector := "#b" |}]
    false "Agency:"
  = Some {| id := "b"; label := "Agency"; fieldName := "agency"; selector := "#b" |}.
Proof.
  destruct (matchField_priorities
              [{| id := "a"; label := "Agency name"; fieldName := "agencyname";
                  selector := "#a" |};
               {| id := "b"; label := "Agency"; fieldName := "agency"; selector := "#b" |}]
              "Agency:") as [Hexact _].
  apply (Hexact [{| id := "a"; label := "Agency name"; fieldName := "agencyname";
                    selector := "#a" |}] _ []).
  - reflexivity.
  - reflexivity.
  - intros g ->%list_elem_of_singleton. reflexivity.
Defined.

Lemma collectFields_eligible labelOf cssEscapeOfBrowser doc f :
  f ∈ collectFields labelOf cssEscapeOfBrowser doc -> isFilterField f = false.
Proof.
  unfold collectFields. intros (input & -> & Hin)%list_elem_of_fmap.
  apply list_elem_of_In, filter_In in Hin as [_ He].
  unfold eligible in He. apply andb_prop in He as [He _].
  by apply negb_true_iff in He.
Qed.

(** X27: the fields [fillFormField] collects hold no filter field, so its
    lookups that skip the filter fields skip nothing: on an object page it
    resolves a name to the field it resolves it to on a list page. *)
Theorem fillFormField_page_kind_irrelevant
    (labelOf : Dom.loc -> option Dom.loc) (cssEscapeOfBrowser : string -> string)
    (doc : Dom.document) (name : string) :
  Forall (fun f => isFilterField f = false)
         (collectFields labelOf cssEscapeOfBrowser doc)
  /\ matchField (collectFields labelOf cssEscapeOfBrowser doc) true name
     = matchField (collectFields labelOf cssEscapeOfBrowser doc) false name
  /\ resolveField labelOf cssEscapeOfBrowser doc name
     = anyField (collectFields labelOf cssEscapeOfBrowser doc) (norm name).
Proof.
  assert (Hall : forall f, f ∈ collectFields labelOf cssEscapeOfBrowser doc ->
                           isFilterField f = false)
    by apply collectFields_eligible.
  assert (Hpages : matchField (collectFields labelOf cssEscapeOfBrowser doc) true name
                   = matchField (collectFields labelOf cssEscapeOfBrowser doc) false name).
  { unfold matchField. unfold anyField at 2.
    rewrite (find_ext _ (exactName (norm name)));
      [|by intros f Hf; rewrite (Hall f Hf), andb_true_r].
    rewrite (find_ext (fun f => exactLabel _ f && _) (exactLabel (norm name)));
      [|by intros f Hf; rewrite (Hall f Hf), andb_true_r].
    rewrite (find_ext (fun f => negb _ && _) (partial (norm name)));
      [|by intros f Hf; rewrite (Hall f Hf)].
    unfold anyField.
    destruct (List.find (exactName (norm name)) _); [done|].
    destruct (List.find (exactLabel (norm name)) _); [done|].
    by destruct (List.find (partial (norm name)) _). }
  split; [by apply Forall_forall|]. split; [exact Hpages|].
  unfold resolveField. destruct (Executor.present _); [by rewrite Hpages|done].
Qed.

End FormsLaws.
